(** * RAGPipeline: the document ingestion and retrieval engine

    A shallow embedding of [src/vector_store.py], [src/web_scraper.py] and
    [src/main.py].  Python strings are sequences of Unicode code points,
    Python integers are [Z], dictionaries are finite maps, the persistent
    collection is an insertion-ordered association list keyed by fragment
    id, and methods that touch the collection or the embedding model are
    computations in a small state-and-exception monad.  What is printed is
    not modelled.

    The libraries the source calls are not part of the repository.  They
    are modelled as follows: [hashlib.md5] by the algorithm of RFC 1321;
    the text splitter by its algorithm; the collection by an association
    list with the write, fetch, delete and query operations the source
    uses; the embedding model, the network and the HTML parsers as opaque
    functions, the fields of the classes [Embedder] and [Web]. *)

From Stdlib Require Import ZArith NArith QArith Ascii String List Lia Sorted
  DecimalN.
From stdpp Require Import base option list gmap.

Close Scope Q_scope.
Open Scope Z_scope.

(* ===================================================================== *)
(** * Part I: definitions *)
(* ===================================================================== *)

(** ** Python strings and bytes *)

(** A Python [str] is a sequence of code points; [len] and slicing count
    code points, not encoded bytes. *)
Abbreviation str := (list N).

(** A [bytes] object: each element is an 8-bit value. *)
Abbreviation bytes := (list Z).

(** A string literal of the source (all literals of the source are ASCII). *)
Definition py (s : string) : str := N_of_ascii <$> list_ascii_of_string s.

(** Exceptions raised along the modelled paths. *)
Inductive exn : Type :=
  | TypeError
  | ValueError
  | IndexError
  | UnicodeEncodeError
  | DuplicateIDError.

(** The outcome of a call: a value, or a raised exception. *)
Inductive res (A : Type) : Type :=
  | Ok (a : A)
  | Raise (e : exn).
Arguments Ok {A} a.
Arguments Raise {A} e.

Definition res_bind {A B} (r : res A) (k : A → res B) : res B :=
  match r with
  | Ok a => k a
  | Raise e => Raise e
  end.

#[global] Instance res_mbind : MBind res := λ A B k r, res_bind r k.

(** [str.encode()] of one code point (UTF-8, strict): lone surrogates are
    rejected; values above U+10FFFF are not code points at all. *)
Definition utf8_char (c : N) : option bytes :=
  let z := Z.of_N c in
  if z <? 0x80 then Some [z]
  else if z <? 0x800 then
    Some [Z.lor 0xC0 (Z.shiftr z 6); Z.lor 0x80 (Z.land z 0x3F)]
  else if z <? 0x10000 then
    if (0xD800 <=? z) && (z <=? 0xDFFF) then None
    else Some [Z.lor 0xE0 (Z.shiftr z 12);
               Z.lor 0x80 (Z.land (Z.shiftr z 6) 0x3F);
               Z.lor 0x80 (Z.land z 0x3F)]
  else if z <? 0x110000 then
    Some [Z.lor 0xF0 (Z.shiftr z 18);
          Z.lor 0x80 (Z.land (Z.shiftr z 12) 0x3F);
          Z.lor 0x80 (Z.land (Z.shiftr z 6) 0x3F);
          Z.lor 0x80 (Z.land z 0x3F)]
  else None.

Fixpoint encode_chars (s : str) : option bytes :=
  match s with
  | [] => Some []
  | c :: rest =>
      match utf8_char c, encode_chars rest with
      | Some b, Some bs => Some (b ++ bs)
      | _, _ => None
      end
  end.

(** [s.encode()]: raises [UnicodeEncodeError] on a lone surrogate. *)
Definition str_encode (s : str) : res bytes :=
  match encode_chars s with
  | Some bs => Ok bs
  | None => Raise UnicodeEncodeError
  end.

(** [str(i)] for a non-negative integer: its decimal digits. *)
Fixpoint digits_of_uint (u : Decimal.uint) : str :=
  match u with
  | Decimal.Nil => []
  | Decimal.D0 u' => 48%N :: digits_of_uint u'
  | Decimal.D1 u' => 49%N :: digits_of_uint u'
  | Decimal.D2 u' => 50%N :: digits_of_uint u'
  | Decimal.D3 u' => 51%N :: digits_of_uint u'
  | Decimal.D4 u' => 52%N :: digits_of_uint u'
  | Decimal.D5 u' => 53%N :: digits_of_uint u'
  | Decimal.D6 u' => 54%N :: digits_of_uint u'
  | Decimal.D7 u' => 55%N :: digits_of_uint u'
  | Decimal.D8 u' => 56%N :: digits_of_uint u'
  | Decimal.D9 u' => 57%N :: digits_of_uint u'
  end.

Definition str_of_nat (n : nat) : str := digits_of_uint (N.to_uint (N.of_nat n)).

(** [str(z)] for any integer. *)
Definition str_of_Z (z : Z) : str :=
  match Z.to_int z with
  | Decimal.Pos u => digits_of_uint u
  | Decimal.Neg u => 45%N :: digits_of_uint u
  end.

(** ** hashlib.md5 (RFC 1321) *)

Module MD5.

Definition mask32 : Z := 0xFFFFFFFF.
Definition add32 (a b : Z) : Z := Z.land (a + b) mask32.
Definition not32 (a : Z) : Z := Z.lxor a mask32.
Definition rotl32 (x c : Z) : Z :=
  Z.lor (Z.land (Z.shiftl x c) mask32) (Z.shiftr x (32 - c)).

Definition F (b c d : Z) : Z := Z.lor (Z.land b c) (Z.land (not32 b) d).
Definition G (b c d : Z) : Z := Z.lor (Z.land b d) (Z.land c (not32 d)).
Definition H (b c d : Z) : Z := Z.lxor b (Z.lxor c d).
Definition I (b c d : Z) : Z := Z.lxor c (Z.lor b (not32 d)).

(** K[i] = floor(2^32 * |sin(i + 1)|) *)
Definition K : list Z :=
  [3614090360; 3905402710; 606105819; 3250441966; 4118548399; 1200080426; 2821735955; 4249261313;
   1770035416; 2336552879; 4294925233; 2304563134; 1804603682; 4254626195; 2792965006; 1236535329;
   4129170786; 3225465664; 643717713; 3921069994; 3593408605; 38016083; 3634488961; 3889429448;
   568446438; 3275163606; 4107603335; 1163531501; 2850285829; 4243563512; 1735328473; 2368359562;
   4294588738; 2272392833; 1839030562; 4259657740; 2763975236; 1272893353; 4139469664; 3200236656;
   681279174; 3936430074; 3572445317; 76029189; 3654602809; 3873151461; 530742520; 3299628645;
   4096336452; 1126891415; 2878612391; 4237533241; 1700485571; 2399980690; 4293915773; 2240044497;
   1873313359; 4264355552; 2734768916; 1309151649; 4149444226; 3174756917; 718787259; 3951481745].

(** Per-round left-rotation amounts. *)
Definition S : list Z :=
  [7; 12; 17; 22; 7; 12; 17; 22; 7; 12; 17; 22; 7; 12; 17; 22;
   5; 9; 14; 20; 5; 9; 14; 20; 5; 9; 14; 20; 5; 9; 14; 20;
   4; 11; 16; 23; 4; 11; 16; 23; 4; 11; 16; 23; 4; 11; 16; 23;
   6; 10; 15; 21; 6; 10; 15; 21; 6; 10; 15; 21; 6; 10; 15; 21].

Definition state : Type := Z * Z * Z * Z.

Definition init : state := (0x67452301, 0xefcdab89, 0x98badcfe, 0x10325476).

Definition le_word (b0 b1 b2 b3 : Z) : Z :=
  Z.lor b0 (Z.lor (Z.shiftl b1 8) (Z.lor (Z.shiftl b2 16) (Z.shiftl b3 24))).

Fixpoint words_of_bytes (bs : bytes) : list Z :=
  match bs with
  | b0 :: b1 :: b2 :: b3 :: rest => le_word b0 b1 b2 b3 :: words_of_bytes rest
  | _ => []
  end.

Definition bytes_of_word (w : Z) : bytes :=
  [Z.land w 0xFF; Z.land (Z.shiftr w 8) 0xFF;
   Z.land (Z.shiftr w 16) 0xFF; Z.land (Z.shiftr w 24) 0xFF].

(** Padding: a 1 bit, zeros up to 56 mod 64, then the bit length as a
    64-bit little-endian integer. *)
Definition pad (msg : bytes) : bytes :=
  let len := Z.of_nat (length msg) in
  let bits := Z.land (8 * len) 0xFFFFFFFFFFFFFFFF in
  msg ++ [0x80] ++ replicate (Z.to_nat ((55 - len) mod 64)) 0
      ++ bytes_of_word (Z.land bits mask32)
      ++ bytes_of_word (Z.shiftr bits 32).

Definition round (M : list Z) (st : state) (i : nat) : state :=
  let '(a, b, c, d) := st in
  let '(f, g) :=
    if (i <? 16)%nat then (F b c d, i)
    else if (i <? 32)%nat then (G b c d, ((5 * i + 1) mod 16)%nat)
    else if (i <? 48)%nat then (H b c d, ((3 * i + 5) mod 16)%nat)
    else (I b c d, ((7 * i) mod 16)%nat) in
  let f' := add32 (add32 (add32 f a) (nth i K 0)) (nth g M 0) in
  (d, add32 b (rotl32 f' (nth i S 0)), b, c).

Definition block (st : state) (M : list Z) : state :=
  let '(a0, b0, c0, d0) := st in
  let '(a, b, c, d) := fold_left (round M) (seq 0 64) st in
  (add32 a0 a, add32 b0 b, add32 c0 c, add32 d0 d).

Fixpoint blocks (n : nat) (ws : list Z) (st : state) : state :=
  match n with
  | O => st
  | Datatypes.S n' => blocks n' (drop 16 ws) (block st (take 16 ws))
  end.

Definition digest (msg : bytes) : bytes :=
  let ws := words_of_bytes (pad msg) in
  let '(a, b, c, d) := blocks (length ws / 16)%nat ws init in
  bytes_of_word a ++ bytes_of_word b ++ bytes_of_word c ++ bytes_of_word d.

Definition hex_digit (n : Z) : N :=
  nth (Z.to_nat n) (py "0123456789abcdef") 48%N.

Definition hex_byte (b : Z) : str :=
  [hex_digit (Z.shiftr b 4); hex_digit (Z.land b 0xF)].

(** [hashlib.md5(data).hexdigest()] *)
Definition hexdigest (msg : bytes) : str := concat (hex_byte <$> digest msg).

End MD5.

(** [hashlib.md5(s.encode()).hexdigest()] *)
Definition md5_hex (s : str) : res str :=
  b ← str_encode s;
  Ok (MD5.hexdigest b).


(** ** The chunker: RecursiveCharacterTextSplitter

    Modelled from the spec: the chunker, [RecursiveCharacterTextSplitter]
    of the package langchain_text_splitters, whose code is not part of the
    repository.  The spec (4.1): split on a prioritized list of separators
    (paragraph break, line break, period and space, space, character
    boundary as last resort), the coarsest separator first; pieces within
    the size bound are merged into chunks of at most the maximum that
    overlap by the configured amount, and a finer separator is tried only
    on a piece that a coarser one fails to bound; a chunk is stripped of
    surrounding whitespace and dropped when nothing is left, so empty or
    whitespace-only input gives the empty sequence.  The definitions below
    follow the library's methods of the same names. *)

(** [c.isspace()] for a code point. *)
Definition isspace (c : N) : bool :=
  ((9 <=? c) && (c <=? 13) || (28 <=? c) && (c <=? 32) || (c =? 133)
   || (c =? 160) || (c =? 5760) || (8192 <=? c) && (c <=? 8202)
   || (c =? 8232) || (c =? 8233) || (c =? 8239) || (c =? 8287)
   || (c =? 12288))%N.

Fixpoint lstrip (s : str) : str :=
  match s with
  | [] => []
  | c :: rest => if isspace c then lstrip rest else s
  end.

Definition rstrip (s : str) : str := rev (lstrip (rev s)).

(** [s.strip()] *)
Definition strip (s : str) : str := rstrip (lstrip s).

(** [separator.join(parts)] *)
Fixpoint join (separator : str) (parts : list str) : str :=
  match parts with
  | [] => []
  | [p] => p
  | p :: rest => p ++ separator ++ join separator rest
  end.

(** [text.startswith(pre)] *)
Fixpoint startswith (text pre : str) : bool :=
  match pre, text with
  | [], _ => true
  | p :: pre', c :: text' => (p =? c)%N && startswith text' pre'
  | _ :: _, [] => false
  end.

(** [re.search(re.escape(sep), text)]: the literal [sep] occurs in [text]. *)
Fixpoint contains (sep text : str) : bool :=
  startswith text sep
  || match text with
     | [] => false
     | _ :: rest => contains sep rest
     end.

(** [re.split("(" + re.escape(sep) + ")", text)] for a non-empty literal
    [sep]: the pieces between the leftmost non-overlapping occurrences of
    [sep], with the separator itself kept as every second element.  [skip]
    counts the characters of a matched occurrence still to be consumed and
    [cur] is the piece being read. *)
Fixpoint re_split_go (sep text : str) (skip : nat) (cur : str) : list str :=
  match text with
  | [] => [cur]
  | c :: rest =>
      match skip with
      | S k => re_split_go sep rest k cur
      | O =>
          if startswith text sep
          then cur :: sep :: re_split_go sep rest (length sep - 1) []
          else re_split_go sep rest 0 (cur ++ [c])
      end
  end.

Definition re_split_capture (sep text : str) : list str :=
  re_split_go sep text 0 [].

(** [[l[i] + l[i + 1] for i in range(0, len(l), 2)]] *)
Fixpoint pair_up (l : list str) : list str :=
  match l with
  | a :: b :: rest => (a ++ b) :: pair_up rest
  | _ => []
  end.

Definition nonempty {A} (l : list A) : bool :=
  match l with [] => false | _ :: _ => true end.

(** [_split_text_with_regex(text, separator, keep_separator=True)] *)
Definition _split_text_with_regex (text separator : str) : list str :=
  let splits :=
    if nonempty separator then
      let _splits := re_split_capture separator text in
      match _splits with
      | [] => []
      | first :: others =>
          let splits := pair_up others in
          let splits :=
            if Nat.even (length _splits)
            then splits ++ option_list (last _splits)
            else splits in
          first :: splits
      end
    else (λ c, [c]) <$> text in
  filter (λ s, s ≠ []) splits.

(** The splitter object: the constructor arguments that the algorithm
    reads.  [keep_separator] is [True] (the class default),
    [strip_whitespace] is [True], [length_function] is [len] and the
    separators are literals, not regular expressions. *)
Record RecursiveCharacterTextSplitter : Type := {
  _chunk_size : Z;
  _chunk_overlap : Z;
  _separators : list str;
}.

Definition len {A} (l : list A) : Z := Z.of_nat (length l).

Section TextSplitter.
Variable self : RecursiveCharacterTextSplitter.

(** [_join_docs]: join, strip, and drop a chunk that is empty. *)
Definition _join_docs (docs : list str) (separator : str) : option str :=
  let text := strip (join separator docs) in
  if nonempty text then Some text else None.

(** The guard of the popping loop of [_merge_splits]. *)
Definition pop_cond (separator_len _len : Z) (current_doc : list str) (total : Z) : bool :=
  (total >? _chunk_overlap self)
  || ((total + _len + (if 0 <? len current_doc then separator_len else 0)
        >? _chunk_size self)
      && (total >? 0)).

(** The popping loop: drop leading pieces of [current_doc] while it is
    longer than the overlap, or too long for the next piece to fit.  The
    guard is false on an empty [current_doc] whenever [total] is the
    length of its join, so the source never reads [current_doc[0]] of an
    empty list. *)
Fixpoint pop_while (separator_len _len : Z) (current_doc : list str) (total : Z)
  : list str * Z :=
  match current_doc with
  | [] => ([], total)
  | d0 :: rest =>
      if pop_cond separator_len _len current_doc total
      then pop_while separator_len _len rest
             (total - (len d0 + (if 1 <? len current_doc then separator_len else 0)))
      else (current_doc, total)
  end.

(** The body of the [for d in splits] loop of [_merge_splits], on the
    loop state [(docs, current_doc, total)]. *)
Definition merge_step (separator : str) (st : list str * list str * Z) (d : str)
  : list str * list str * Z :=
  let '(docs, current_doc, total) := st in
  let separator_len := len separator in
  let _len := len d in
  let '(docs, current_doc, total) :=
    if total + _len + (if 0 <? len current_doc then separator_len else 0)
         >? _chunk_size self
    then
      if 0 <? len current_doc then
        let docs := docs ++ option_list (_join_docs current_doc separator) in
        let '(current_doc, total) := pop_while separator_len _len current_doc total in
        (docs, current_doc, total)
      else (docs, current_doc, total)
    else (docs, current_doc, total) in
  let current_doc := current_doc ++ [d] in
  (docs, current_doc,
   total + _len + (if 1 <? len current_doc then separator_len else 0)).

(** [_merge_splits(splits, separator)] *)
Definition _merge_splits (splits : list str) (separator : str) : list str :=
  let '(docs, current_doc, _) := fold_left (merge_step separator) splits ([], [], 0) in
  docs ++ option_list (_join_docs current_doc separator).

(** The body of the [for s in splits] loop of [_split_text], on the loop
    state [(final_chunks, _good_splits)].  [recur] is [None] when
    [new_separators] is empty, and otherwise the recursive call
    [self._split_text(_, new_separators)]. *)
Definition split_step (recur : option (str → list str))
    (st : list str * list str) (s : str) : list str * list str :=
  let '(final_chunks, _good_splits) := st in
  if len s <? _chunk_size self then (final_chunks, _good_splits ++ [s])
  else
    let final_chunks :=
      if nonempty _good_splits
      then final_chunks ++ _merge_splits _good_splits []
      else final_chunks in
    match recur with
    | None => (final_chunks ++ [s], [])
    | Some f => (final_chunks ++ f s, [])
    end.

(** [_split_text] once the separator is chosen: split, then merge the
    short pieces and recurse into the long ones.  With
    [keep_separator=True] the pieces are merged with the empty string. *)
Definition split_with (separator : str) (recur : option (str → list str))
    (text : str) : list str :=
  let splits := _split_text_with_regex text separator in
  let '(final_chunks, _good_splits) := fold_left (split_step recur) splits ([], []) in
  if nonempty _good_splits
  then final_chunks ++ _merge_splits _good_splits []
  else final_chunks.

(** [_split_text(text, separators)].  The scan [for i, _s in
    enumerate(separators)] and the recursive call on
    [separators[i + 1:]] both walk down the same list, so one
    structural recursion serves both: [last_sep] is [separators[-1]],
    the default separator when the scan finds none, and it is also the
    last element of every non-empty suffix. *)
Fixpoint _split_text_from (last_sep : str) (separators : list str) (text : str)
  : list str :=
  match separators with
  | [] => split_with last_sep None text
  | _s :: new_separators =>
      if negb (nonempty _s) then split_with [] None text
      else if contains _s text then
        split_with _s
          (match new_separators with
           | [] => None
           | _ :: _ => Some (_split_text_from last_sep new_separators)
           end) text
      else _split_text_from last_sep new_separators text
  end.

Definition _split_text (text : str) (separators : list str) : list str :=
  _split_text_from (default [] (last separators)) separators text.

(** [split_text(text)] *)
Definition split_text (text : str) : list str :=
  _split_text text (_separators self).

End TextSplitter.

(** The splitter built by [VectorStore.__init__]. *)
Definition text_splitter : RecursiveCharacterTextSplitter :=
  {| _chunk_size := 1000;
     _chunk_overlap := 200;
     _separators := [[10; 10]%N; [10]%N; py ". "; py " "; py ""] |}.

(** ** Metadata records *)

(** The values a metadata dictionary holds along the modelled paths:
    strings, integers and booleans (floating-point values are left out). *)
Inductive value : Type :=
  | VStr (s : str)
  | VInt (z : Z)
  | VBool (b : bool).

#[global] Instance value_eq_dec : EqDecision value.
Proof. solve_decision. Defined.

(** A metadata dictionary: string keys, compared by content. *)
Abbreviation Metadata := (gmap str value).

(** A field of a metadata record that may be missing altogether (the
    collection returns [None] as the metadata of an entry that was
    written without one): where there is no record there is no field. *)
#[global] Instance optional_record_lookup : Lookup str value (option Metadata) :=
  λ key o, m ← o; m !! key.

(** [str(v)], as an f-string renders a value. *)
Definition py_str (v : value) : str :=
  match v with
  | VStr s => s
  | VInt z => str_of_Z z
  | VBool true => py "True"
  | VBool false => py "False"
  end.

(** ** The embedding model *)

(** The sentence-transformer model is an opaque capability: one vector per
    text, the same for the same text whatever the batch it is encoded in,
    and a distance between vectors.  Distances are rationals
    (floating-point rounding and NaN are not modelled). *)
Class Embedder : Type := {
  embedding : Type;
  model_encode : str → embedding;
  cosine_distance : embedding → embedding → Q;
}.

(** ** The collection (chromadb) *)

Section Store.
Context `{Embedder}.

(** One stored fragment.  Its metadata is optional in chromadb:
    [collection.get] and [collection.query] return [None] as the metadata
    of an entry that was written without one. *)
Record Entry : Type := {
  e_embedding : embedding;
  e_metadata : option Metadata;
  e_document : str;
}.

(** The collection, in insertion order, keyed by fragment id. *)
Definition Collection : Type := list (str * Entry).

(** A metadata filter [{key: v}]. *)
Definition Where : Type := (str * value)%type.

(** Calls made to the embedding model and to the collection, oldest
    first. *)
Inductive Call : Type :=
  | CallEncode (texts : list str)
  | CallAdd (ids : list str)
  | CallQuery (n_results : Z) (where_ : option Where)
  | CallGet (where_ : Where)
  | CallDelete (ids : list str).

(** The state a [VectorStore] object works on. *)
Record VectorStore : Type := {
  collection : Collection;
  calls : list Call;
}.

(** A method: it may raise, and it may change the state. *)
Definition M (A : Type) : Type := VectorStore → res A * VectorStore.

Definition ret {A} (a : A) : M A := λ st, (Ok a, st).

Definition bind {A B} (m : M A) (k : A → M B) : M B :=
  λ st, match m st with
        | (Ok a, st') => k a st'
        | (Raise e, st') => (Raise e, st')
        end.

#[global] Instance M_mbind : MBind M := λ A B k m, bind m k.

Definition lift {A} (r : res A) : M A := λ st, (r, st).

Definition log (c : Call) : M unit :=
  λ st, (Ok tt, {| collection := collection st; calls := calls st ++ [c] |}).

Definition get_collection : M Collection := λ st, (Ok (collection st), st).

Definition put_collection (c : Collection) : M unit :=
  λ st, (Ok tt, {| collection := c; calls := calls st |}).

(** The entry stored under an id, if any. *)
Fixpoint lookup_id (c : Collection) (id : str) : option Entry :=
  match c with
  | [] => None
  | (k, e) :: rest => if decide (k = id) then Some e else lookup_id rest id
  end.

Definition has_id (c : Collection) (id : str) : bool :=
  bool_decide (id ∈ c.*1).

(** One record of [collection.add].  The source writes with chromadb's
    [add], not with its [upsert]: [add] writes a record only under an id
    that is not in the collection yet, and a record whose id exists is
    skipped without an error, the stored entry staying as it is. *)
Definition add_record (c : Collection) (r : str * Entry) : Collection :=
  if has_id c r.1 then c else c ++ [r].

Fixpoint zip_entries (embeddings : list embedding) (metadatas : list Metadata)
    (documents : list str) : list Entry :=
  match embeddings, metadatas, documents with
  | e :: es, m :: ms, d :: ds =>
      {| e_embedding := e; e_metadata := Some m; e_document := d |}
        :: zip_entries es ms ds
  | _, _, _ => []
  end.

(** [collection.add(ids, embeddings, metadatas, documents)]: the batch
    is validated (non-empty, aligned, ids unique within the batch: a
    repeated id raises [DuplicateIDError]) and then written record by
    record.  Only these failures are modelled: a failure of the store
    itself (a batch over its size limit, an error while writing, which
    may leave a part of the batch written) is not, and neither is a
    failure of the embedding model. *)
Definition collection_add (ids : list str) (embeddings : list embedding)
    (metadatas : list Metadata) (documents : list str) : M unit :=
  log (CallAdd ids);;
  if negb (nonempty ids) then lift (Raise ValueError)
  else if negb (bool_decide (length embeddings = length ids
                             ∧ length metadatas = length ids
                             ∧ length documents = length ids))
  then lift (Raise ValueError)
  else if negb (bool_decide (NoDup ids)) then lift (Raise DuplicateIDError)
  else
    c ← get_collection;
    put_collection
      (fold_left add_record (zip ids (zip_entries embeddings metadatas documents)) c).

(** [collection.count()]: the number of entries. *)
Definition count (st : VectorStore) : Z := len (collection st).

Definition matches (w : option Where) (r : str * Entry) : bool :=
  match w with
  | None => true
  | Some (key, v) => bool_decide (e_metadata r.2 !! key = Some v)
  end.

(** Modelled from the spec: [fetchByMetadata], "exact-match filtered
    scan, no ranking, no limit" ([collection.get] with a [where] filter,
    whose code is not part of the repository): the ids of the entries
    whose metadata has [v] under [key], in insertion order. *)
Definition ids_where (w : Where) (c : Collection) : list str :=
  (filter (λ r, matches (Some w) r = true) c).*1.

(** [collection.get(where={key: v})] *)
Definition collection_get (w : Where) : M (list str) :=
  log (CallGet w);;
  c ← get_collection;
  ret (ids_where w c).

(** Modelled from the spec: [deleteByIds], "removes entries; removing a
    nonexistent id is a no-op, not an error" ([collection.delete], whose
    code is not part of the repository). *)
Definition collection_delete (ids : list str) : M unit :=
  log (CallDelete ids);;
  c ← get_collection;
  put_collection (filter (λ r, r.1 ∉ ids) c).

(** What [collection.query] returns for one query vector. *)
Record QueryResult : Type := {
  q_ids : list (list str);
  q_documents : option (list (list str));
  q_metadatas : option (list (list (option Metadata)));
  q_distances : option (list (list Q));
}.

Definition nearer (q : embedding) (a b : str * Entry) : bool :=
  Qle_bool (cosine_distance q (e_embedding a.2)) (cosine_distance q (e_embedding b.2)).

(** Insertion into a list that is sorted by distance to [q]: before the
    first entry that is at least as far. *)
Fixpoint insert_by (q : embedding) (r : str * Entry) (l : list (str * Entry))
  : list (str * Entry) :=
  match l with
  | [] => [r]
  | x :: rest => if nearer q r x then r :: x :: rest else x :: insert_by q r rest
  end.

(** The entries by ascending distance to [q].  They are inserted from the
    last one to the first, each before the entries that are at least as
    far: entries at the same distance stay in insertion order. *)
Definition rank (q : embedding) (l : list (str * Entry)) : list (str * Entry) :=
  foldr (λ r acc, insert_by q r acc) [] l.

Definition nearest (q : embedding) (n_results : Z) (w : option Where) (c : Collection)
  : list (str * Entry) :=
  take (Z.to_nat n_results) (rank q (filter (λ r, matches w r = true) c)).

(** Modelled from the spec: [collection.query], whose code (chromadb) is
    not part of the repository: "returns up to topK nearest entries by
    the collection's configured metric, ascending distance (nearest
    first); ties broken by insertion order", candidates restricted by
    the metadata filter before ranking.  A number of requested results
    that is not positive is refused. *)
Definition collection_query (query_embeddings : list embedding) (n_results : Z)
    (w : option Where) : M QueryResult :=
  log (CallQuery n_results w);;
  if n_results <=? 0 then lift (Raise TypeError)
  else
    c ← get_collection;
    let hits := (λ q, nearest q n_results w c) <$> query_embeddings in
    ret {| q_ids := (λ h, h.*1) <$> hits;
           q_documents := Some ((λ h, (λ r, e_document r.2) <$> h) <$> hits);
           q_metadatas := Some ((λ h, (λ r, e_metadata r.2) <$> h) <$> hits);
           q_distances :=
             Some ((λ q, (λ r, cosine_distance q (e_embedding r.2))
                           <$> nearest q n_results w c) <$> query_embeddings) |}.

End Store.

(** ** VectorStore (src/vector_store.py) *)

Section VectorStoreMethods.
Context `{Embedder}.

(** [_generate_id(text, url)]: the MD5 hex digest of [f"{url}:{text[:100]}"]. *)
Definition _generate_id (text url : str) : res str :=
  let content := url ++ py ":" ++ take 100 text in
  md5_hex content.

(** [_get_embeddings(texts)]: one call to the model for the whole list. *)
Definition _get_embeddings (texts : list str) : M (list embedding) :=
  log (CallEncode texts);;
  ret (model_encode <$> texts).

(** [chunk_id = self._generate_id(chunk, f"{url}_{i}")] *)
Definition chunk_id (url : value) (i : nat) (chunk : str) : res str :=
  _generate_id chunk (py_str url ++ py "_" ++ str_of_nat i).

(** [chunk_metadata = {**metadata, 'chunk_index': i, 'total_chunks': len(chunks)}] *)
Definition chunk_metadata (metadata : Metadata) (i : nat) (total_chunks : Z)
  : Metadata :=
  <[py "total_chunks" := VInt total_chunks]>
    (<[py "chunk_index" := VInt (Z.of_nat i)]> metadata).

(** The [for i, chunk in enumerate(chunks)] loop of [add_document], on
    the loop state [(ids, metadatas, documents)]; [total_chunks] is
    [len(chunks)] of the whole list and [i] the position reached. *)
Fixpoint build_batch (url : value) (metadata : Metadata) (total_chunks : Z)
    (i : nat) (chunks : list str) (acc : list str * list Metadata * list str)
  : res (list str * list Metadata * list str) :=
  match chunks with
  | [] => Ok acc
  | chunk :: rest =>
      let '(ids, metadatas, documents) := acc in
      id ← chunk_id url i chunk;
      build_batch url metadata total_chunks (S i) rest
        (ids ++ [id],
         metadatas ++ [chunk_metadata metadata i total_chunks],
         documents ++ [chunk])
  end.

(** [metadata.get('url', 'unknown')] *)
Definition get_url (metadata : Metadata) : value :=
  default (VStr (py "unknown")) (metadata !! py "url").

(** [add_document(content, metadata)] *)
Definition add_document (content : str) (metadata : Metadata) : M Z :=
  let chunks := split_text text_splitter content in
  if negb (nonempty chunks) then ret 0
  else
    let url := get_url metadata in
    '(ids, metadatas, documents) ←
      lift (build_batch url metadata (len chunks) 0 chunks ([], [], []));
    embeddings ← _get_embeddings documents;
    collection_add ids embeddings metadatas documents;;
    ret (len chunks).

(** The fragment that [add_document] hands to the collection for the
    chunk at position [i] of a document of [total_chunks] chunks. *)
Definition fragment (metadata : Metadata) (total_chunks : Z) (i : nat) (chunk : str)
  : Entry :=
  {| e_embedding := model_encode chunk;
     e_metadata := Some (chunk_metadata metadata i total_chunks);
     e_document := chunk |}.

(** The ids of the chunks from position [i] on, as the loop derives
    them. *)
Fixpoint chunk_ids (url : value) (i : nat) (chunks : list str) : res (list str) :=
  match chunks with
  | [] => Ok []
  | chunk :: rest =>
      id ← chunk_id url i chunk;
      ids ← chunk_ids url (S i) rest;
      Ok (id :: ids)
  end.

(** The fragments of the chunks from position [i] on. *)
Fixpoint fragments (metadata : Metadata) (total_chunks : Z) (i : nat)
    (chunks : list str) : list Entry :=
  match chunks with
  | [] => []
  | chunk :: rest =>
      fragment metadata total_chunks i chunk
        :: fragments metadata total_chunks (S i) rest
  end.

(** The metadata records of the chunks from position [i] on. *)
Fixpoint chunk_metadatas (metadata : Metadata) (total_chunks : Z) (i : nat)
    (chunks : list str) : list Metadata :=
  match chunks with
  | [] => []
  | _ :: rest =>
      chunk_metadata metadata i total_chunks
        :: chunk_metadatas metadata total_chunks (S i) rest
  end.

(** The store after [add_document] has written [chunks] under [ids]. *)
Definition added (metadata : Metadata) (chunks : list str) (ids : list str)
    (st : VectorStore) : VectorStore :=
  {| collection :=
       fold_left add_record (zip ids (fragments metadata (len chunks) 0 chunks))
         (collection st);
     calls := calls st ++ [CallEncode chunks; CallAdd ids] |}.

(** One element of the list [search] returns.  Its metadata is what
    the collection returned for the entry ([None] for an entry without
    metadata), or the empty record. *)
Record SearchHit : Type := {
  content : str;
  metadata : option Metadata;
  distance : option Q;
}.

(** [l[i]] *)
Definition py_index {A} (l : list A) (i : nat) : res A :=
  match l !! i with
  | Some x => Ok x
  | None => Raise IndexError
  end.

(** Truth value of an optional list: [None] and [[]] are false. *)
Definition truthy {A} (o : option (list A)) : bool :=
  match o with
  | Some (_ :: _) => true
  | _ => false
  end.

(** The body of the [for i, doc in enumerate(results['documents'][0])]
    loop of [search].  The metadata of a hit is what the result holds
    for it, [None] included; the empty record is used only when the
    result has no list of metadata. *)
Definition format_hit (results : QueryResult) (i : nat) (doc : str) : res SearchHit :=
  m ← (if truthy (q_metadatas results)
       then row ← py_index (default [] (q_metadatas results)) 0; py_index row i
       else Ok (Some ∅));
  d ← (if truthy (q_distances results)
       then row ← py_index (default [] (q_distances results)) 0;
            d ← py_index row i; Ok (Some d)
       else Ok None);
  Ok {| content := doc; metadata := m; distance := d |}.

Fixpoint format_loop (results : QueryResult) (i : nat) (docs : list str)
    (formatted_results : list SearchHit) : res (list SearchHit) :=
  match docs with
  | [] => Ok formatted_results
  | doc :: rest =>
      h ← format_hit results i doc;
      format_loop results (S i) rest (formatted_results ++ [h])
  end.

(** The formatting part of [search]. *)
Definition format_results (results : QueryResult) : res (list SearchHit) :=
  match q_documents results with
  | Some (row :: _) =>
      if nonempty row then format_loop results 0 row [] else Ok []
  | _ => Ok []
  end.

(** [search(query, n_results=5, where=None)] *)
Definition search (query : str) (n_results : Z) (where_ : option Where)
  : M (list SearchHit) :=
  embeddings ← _get_embeddings [query];
  query_embedding ← lift (py_index embeddings 0);
  results ← collection_query [query_embedding] n_results where_;
  lift (format_results results).

(** The element of the result list that [search] builds for an entry
    ranked against the query vector [q]. *)
Definition hit_of (q : embedding) (r : str * Entry) : SearchHit :=
  {| content := e_document r.2;
     metadata := e_metadata r.2;
     distance := Some (cosine_distance q (e_embedding r.2)) |}.

(** [delete_by_url(url)] *)
Definition delete_by_url (url : str) : M Z :=
  results ← collection_get (py "url", VStr url);
  results ← (if negb (nonempty results)
             then collection_get (py "source", VStr url)
             else ret results);
  if nonempty results then
    collection_delete results;;
    ret (len results)
  else ret 0.

End VectorStoreMethods.

(** ** WebScraper (src/web_scraper.py) *)

(** What the scraper takes from the network and from the HTML libraries
    (requests, urllib, BeautifulSoup, html2text). *)
Class Web : Type := {
  (** [urlparse(url).scheme]; [None] when [urlparse] raises [ValueError] *)
  urlparse_scheme : str → option str;
  (** [urlparse(url).netloc] *)
  urlparse_netloc : str → str;
  (** [requests.get(url, ...)] followed by [raise_for_status()], then
      [response.text]; [None] when a [RequestException] is raised *)
  requests_get : str → option str;
  (** the main content of the page rendered by html2text *)
  html_to_text : str → str;
  (** [soup.title.string], and the [og:title], [description] and
      [og:description] meta tags *)
  soup_title : str → option str;
  soup_og_title : str → option str;
  soup_description : str → option str;
  soup_og_description : str → option str;
}.

Section WebScraper.
Context `{Web}.

(** [fetch_url(url)]: the page, or [None].  The route hands over
    [None] when the request has no [url] argument; its scheme is empty. *)
Definition fetch_url (url : option str) : option str :=
  match url with
  | None => None
  | Some u =>
      match urlparse_scheme u with
      | None => None
      | Some scheme =>
          if negb (bool_decide (scheme ∈ [py "http"; py "https"])) then None
          else requests_get u
      end
  end.

(** [text.split('\n')] *)
Fixpoint split_lines (text : str) (cur : str) : list str :=
  match text with
  | [] => [cur]
  | c :: rest =>
      if (c =? 10)%N then cur :: split_lines rest []
      else split_lines rest (cur ++ [c])
  end.

(** [extract_text(html_content)] *)
Definition extract_text (html_content : str) : str :=
  let text := html_to_text html_content in
  let lines := strip <$> split_lines text [] in
  let lines := filter (λ line, line ≠ []) lines in
  join [10%N] lines.

(** [x or y] on an optional string: [None] and [""] are false. *)
Definition or_else (x : option str) (y : option str) : option str :=
  match x with
  | Some (_ :: _) => x
  | _ => y
  end.

Record PageMetadata : Type := {
  pm_url : str;
  pm_title : str;
  pm_description : str;
  pm_domain : str;
}.

(** [extract_metadata(html_content, url)] *)
Definition extract_metadata (html_content url : str) : PageMetadata :=
  let title := or_else (soup_title html_content) (soup_og_title html_content) in
  let description :=
    or_else (soup_description html_content) (soup_og_description html_content) in
  {| pm_url := url;
     pm_title := default (py "Unknown") (or_else title (Some (py "Unknown")));
     pm_description := default [] (or_else description (Some []));
     pm_domain := urlparse_netloc url |}.

Record ScrapeResult : Type := {
  sr_content : str;
  sr_metadata : PageMetadata;
}.

(** [scrape(url)]: the text and metadata of the page, or [None]. *)
Definition scrape (url : option str) : option ScrapeResult :=
  match fetch_url url with
  | None => None
  | Some html_content =>
      if negb (nonempty html_content) then None
      else
        Some {| sr_content := extract_text html_content;
                sr_metadata := extract_metadata html_content (default [] url) |}
  end.

End WebScraper.

(** ** The routes (src/main.py) *)

Section Main.
Context `{Embedder} `{Web}.

(** [VectorStore()]: opens the persisted collection, creating it empty
    when there is none yet. *)
Definition VectorStore_init (db : option Collection) : VectorStore :=
  {| collection := default [] db; calls := [] |}.

(** The [/process] route.  [source_url] is the [url] argument of the
    request, [None] when absent; [db] is the collection on disk.
    Subscripting the [None] that a failed scrape returns raises
    [TypeError].  When the scrape succeeds [source_url] is a string
    ([scrape] fails on [None]), so the default of the [url] entry is
    never used. *)
Definition process (source_url : option str) (db : option Collection)
  : res str * VectorStore :=
  let result := scrape source_url in
  let store := VectorStore_init db in
  match result with
  | None => (Raise TypeError, store)
  | Some r =>
      let content := sr_content r in
      let metadata : Metadata :=
        <[py "title" := VStr (pm_title (sr_metadata r))]>
          {[ py "url" := VStr (default [] source_url) ]} in
      (chunks_added ← add_document content metadata;
       ret (py "process completed")) store
  end.

End Main.

(** ** Instances for the worked examples *)

(** A toy embedding model: a text is represented by its length, and the
    distance between two texts is the difference of their lengths. *)
Definition length_embedder : Embedder :=
  {| embedding := Z;
     model_encode := λ s, len s;
     cosine_distance := λ a b, inject_Z (Z.abs (a - b)) |}.

(** The prefix of [url] before the first [:]; a toy [urlparse]. *)
Fixpoint scheme_of (url : str) : str :=
  match url with
  | [] => []
  | c :: rest => if (c =? 58)%N then [] else c :: scheme_of rest
  end.

(** A toy network with a single page, at [http://a]. *)
Definition one_page_web : Web :=
  {| urlparse_scheme := λ u, Some (scheme_of u);
     urlparse_netloc := λ u, drop 7 u;
     requests_get := λ u,
       if bool_decide (u = py "http://a") then Some (py "The quick brown fox. ") else None;
     html_to_text := λ h, h;
     soup_title := λ _, Some (py "A");
     soup_og_title := λ _, None;
     soup_description := λ _, None;
     soup_og_description := λ _, None |}.

(** Characters [str.encode()] accepts: code points that are not
    surrogates. *)
Definition is_scalar (c : N) : bool :=
  ((c <? 0xD800) || (0xDFFF <? c) && (c <? 0x110000))%N.

(** Lower-case hexadecimal digits. *)
Definition is_hex_digit (c : N) : bool :=
  ((48 <=? c) && (c <=? 57) || (97 <=? c) && (c <=? 102))%N.

(** The text that [add_document] has hashed for the chunk at position
    [i]: [f"{url}_{i}:{chunk[:100]}"], the source identifier, the
    position and the first 100 characters of the chunk. *)
Definition id_text (url : value) (i : nat) (chunk : str) : str :=
  py_str url ++ py "_" ++ str_of_nat i ++ py ":" ++ take 100 chunk.

(** ** Vocabulary of the proofs *)

(** Boolean comparisons in the hypotheses, as propositions. *)
Ltac bool_to_prop :=
  repeat match goal with
    | H : (_ >? _) = _ |- _ => rewrite Z.gtb_ltb in H
    | H : (_ <? _) = true |- _ => apply Z.ltb_lt in H
    | H : (_ <? _) = false |- _ => apply Z.ltb_ge in H
    | H : (_ <=? _) = true |- _ => apply Z.leb_le in H
    | H : (_ <=? _) = false |- _ => apply Z.leb_gt in H
    end.

(** The sum of the lengths of the pieces: their length once joined with
    the empty separator. *)
Definition total_len (docs : list str) : Z := foldr (λ d acc, len d + acc) 0 docs.

(** A chunk within the size bound, and a piece below it. *)
Definition fits_in (self : RecursiveCharacterTextSplitter) (c : str) : Prop :=
  len c ≤ _chunk_size self.

Definition shorter_than (self : RecursiveCharacterTextSplitter) (c : str) : Prop :=
  len c < _chunk_size self.

(** Whitespace-only text. *)
Definition blank (s : str) : Prop := Forall (λ c, isspace c = true) s.

(** The invariant of the merging loop: the chunks emitted so far are
    within the bound, and [total] is the length of [current_doc] joined,
    itself within the bound. *)
Definition merge_inv (self : RecursiveCharacterTextSplitter)
    (st : list str * list str * Z) : Prop :=
  let '(docs, cur, total) := st in
  Forall (fits_in self) docs ∧ total = total_len cur ∧ total ≤ _chunk_size self.

(** What the splitting loop needs of the pieces it cannot merge: with no
    finer separator left there is no such piece, and otherwise the
    recursive call keeps the bound. *)
Definition recur_fits (self : RecursiveCharacterTextSplitter)
    (recur : option (str → list str)) (splits : list str) : Prop :=
  match recur with
  | None => Forall (shorter_than self) splits
  | Some f => ∀ s, Forall (fits_in self) (f s)
  end.

(** The same for whitespace-only text: the recursive call yields no
    chunk. *)
Definition recur_blank (self : RecursiveCharacterTextSplitter)
    (recur : option (str → list str)) (splits : list str) : Prop :=
  match recur with
  | None => Forall (shorter_than self) splits
  | Some f => ∀ s, blank s → f s = []
  end.

(** The distance of an entry to the query vector. *)
Definition entry_distance `{Embedder} (q : embedding) (r : str * Entry) : Q :=
  cosine_distance q (e_embedding r.2).

(** The ids of a collection are pairwise distinct. *)
Definition unique_ids `{Embedder} (c : Collection) : Prop := NoDup c.*1.

(** Re-ingestion read as an overwrite: ingesting [(content, metadata)]
    twice leaves the count as it was after the first call, and the entry
    under the id of every chunk is then the fragment of this document. *)
Definition reingest_overwrites `{Embedder} (content : str) (metadata : Metadata)
    (st : VectorStore) : Prop :=
  ∀ n1 st1 n2 st2,
    add_document content metadata st = (Ok n1, st1) →
    add_document content metadata st1 = (Ok n2, st2) →
    count st2 = count st1
    ∧ ∀ i chunk id,
        split_text text_splitter content !! i = Some chunk →
        chunk_id (get_url metadata) i chunk = Ok id →
        lookup_id (collection st2) id
        = Some (fragment metadata (len (split_text text_splitter content)) i chunk).

(** Ingestion read as writing every chunk: when the chunker yields
    chunks and [add_document] returns, it returns their number, and the
    entry stored under the id of the chunk at every position carries the
    metadata of this document, extended with the position and the number
    of chunks. *)
Definition ingest_stores_metadata `{Embedder} (content : str) (metadata : Metadata)
    (st : VectorStore) : Prop :=
  ∀ n st',
    split_text text_splitter content ≠ [] →
    add_document content metadata st = (Ok n, st') →
    n = len (split_text text_splitter content)
    ∧ ∀ i chunk id,
        split_text text_splitter content !! i = Some chunk →
        chunk_id (get_url metadata) i chunk = Ok id →
        ∃ e, lookup_id (collection st') id = Some e
             ∧ e_metadata e
               = Some (<[py "total_chunks" :=
                           VInt (len (split_text text_splitter content))]>
                         (<[py "chunk_index" := VInt (Z.of_nat i)]> metadata)).

(** Two documents without a [url], read as overwriting each other: the
    ids are derived from the literal [unknown], chunks at the same
    position with the same first 100 characters get the same id, and the
    document ingested second takes the place of the first under that
    id. *)
Definition urlless_overwrite `{Embedder} (content1 : str) (m1 : Metadata)
    (content2 : str) (m2 : Metadata) (st : VectorStore) : Prop :=
  m1 !! py "url" = None → m2 !! py "url" = None →
  ∀ i c1 c2 n1 st1 n2 st2,
    split_text text_splitter content1 !! i = Some c1 →
    split_text text_splitter content2 !! i = Some c2 →
    take 100 c1 = take 100 c2 →
    add_document content1 m1 st = (Ok n1, st1) →
    add_document content2 m2 st1 = (Ok n2, st2) →
    ∃ id,
      chunk_id (VStr (py "unknown")) i c1 = Ok id
      ∧ chunk_id (get_url m1) i c1 = Ok id
      ∧ chunk_id (get_url m2) i c2 = Ok id
      ∧ lookup_id (collection st2) id
        = Some (fragment m2 (len (split_text text_splitter content2)) i c2).


(** The result of [collection.query] for the single query vector [q],
    given the ranked entries. *)
Definition result_of `{Embedder} (q : embedding) (hits : list (str * Entry)) : QueryResult :=
  {| q_ids := [hits.*1];
     q_documents := Some [(λ r, e_document r.2) <$> hits];
     q_metadatas := Some [(λ r, e_metadata r.2) <$> hits];
     q_distances := Some [(λ r, cosine_distance q (e_embedding r.2)) <$> hits] |}.


(** ** Worked examples *)

(** Two uploaded files with the same text, identified by [source] only. *)
Definition file_a_metadata : Metadata := {[ py "source" := VStr (py "a.txt") ]}.
Definition file_b_metadata : Metadata := {[ py "source" := VStr (py "b.txt") ]}.

Definition empty_store `{Embedder} : VectorStore := {| collection := []; calls := [] |}.

(** A store that already holds the fragment of an earlier version of the
    page [u]: same text, another title. *)
Definition stale_store : VectorStore :=
  (add_document (H := length_embedder) (py "hello")
     (<[py "title" := VStr (py "old")]> {[ py "url" := VStr (py "u") ]})
     {| collection := []; calls := [] |}).2.

Definition fresh_metadata : Metadata :=
  <[py "title" := VStr (py "new")]> {[ py "url" := VStr (py "u") ]}.

(** A collection with one entry that was written without metadata (by
    other means than [add_document], which always passes a record). *)
Definition bare_store : VectorStore (H := length_embedder) :=
  {| collection :=
       [(py "id0", {| e_embedding := 5 : embedding (Embedder := length_embedder);
                      e_metadata := None;
                      e_document := py "hello" |})];
     calls := [] |}.


(** ** VectorStore: sources, statistics and reset (src/vector_store.py) *)

(** [v == w] on metadata values, which is also how a Python set tells its
    elements apart: strings and integers by value, and a boolean equals
    the integer 0 or 1. *)
Definition py_eqb (v w : value) : bool :=
  match v, w with
  | VStr s, VStr t => bool_decide (s = t)
  | VInt a, VInt b => bool_decide (a = b)
  | VBool a, VBool b => bool_decide (a = b)
  | VInt a, VBool b => bool_decide (a = if b then 1 else 0)
  | VBool b, VInt a => bool_decide (a = if b then 1 else 0)
  | _, _ => false
  end.

(** [sources.add(v)].  The set is kept as the list of its elements in the
    order of their first insertion; the order in which Python iterates
    over a set is not specified, so only the elements and their number
    are meaningful. *)
Definition set_add (sources : list value) (v : value) : list value :=
  if existsb (py_eqb v) sources then sources else sources ++ [v].

(** The body of the [for metadata in all_data['metadatas']] loop of
    [get_all_sources], for a metadata record. *)
Definition sources_step (sources : list value) (metadata : Metadata) : list value :=
  match metadata !! py "url" with
  | Some u => set_add sources u
  | None =>
      match metadata !! py "source" with
      | Some s => set_add sources s
      | None => sources
      end
  end.

(** The [for metadata in all_data['metadatas']] loop of
    [get_all_sources]: ['url' in metadata] raises [TypeError] when
    [metadata] is [None]. *)
Fixpoint sources_loop (metadatas : list (option Metadata)) (sources : list value)
  : res (list value) :=
  match metadatas with
  | [] => Ok sources
  | None :: _ => Raise TypeError
  | Some metadata :: rest => sources_loop rest (sources_step sources metadata)
  end.

(** What [get_stats] returns. *)
Record Stats : Type := {
  total_chunks : Z;
  total_sources : Z;
  sources : list value;
}.

Section VectorStoreLifecycle.
Context `{Embedder}.

(** [collection.get(include=["metadatas"])]: the metadata of every entry,
    in insertion order, [None] for an entry without metadata. *)
Definition collection_get_all : M (list (option Metadata)) :=
  c ← get_collection;
  ret ((λ r, e_metadata r.2) <$> c).

(** [get_all_sources()].  The loop stops with the [TypeError] of
    ['url' in metadata] at the first entry whose metadata is [None]. *)
Definition get_all_sources : M (list value) :=
  all_data ← collection_get_all;
  sources ← lift (if nonempty all_data then sources_loop all_data [] else Ok []);
  ret sources.

(** [collection.count()] as a call. *)
Definition collection_count : M Z := λ st, (Ok (count st), st).

(** [get_stats()] *)
Definition get_stats : M Stats :=
  count ← collection_count;
  sources ← get_all_sources;
  ret {| total_chunks := count;
         total_sources := len sources;
         sources := sources |}.

(** [clear()]: the collection is deleted and created again, empty. *)
Definition clear : M unit := put_collection [].

End VectorStoreLifecycle.

(** ** The other routes (src/main.py) *)

Section Routes.
Context `{Embedder} `{Web}.

(** The [/] route. *)
Definition hello : str := py "Hello World".

(** The [/search] route, for a request that carries a [query] argument:
    [store.search(query)] with the defaults [n_results=5], [where=None],
    on the collection on disk. *)
Definition search_route (query : str) (db : option Collection)
  : res (list SearchHit) * VectorStore :=
  search query 5 None (VectorStore_init db).

(** The [/status] route. *)
Definition status (db : option Collection) : res Stats * VectorStore :=
  get_stats (VectorStore_init db).

End Routes.

(** ** Vocabulary of the further properties *)

(** The value that identifies the source of an entry for
    [get_all_sources]: its [url], and its [source] only when it has no
    [url]. *)
Definition source_of (metadata : Metadata) : option value :=
  match metadata !! py "url" with
  | Some u => Some u
  | None => metadata !! py "source"
  end.

(** The source of an entry; an entry without metadata has none. *)
Definition entry_source `{Embedder} (e : Entry) : option value :=
  m ← e_metadata e; source_of m.

(** Every entry of the collection has a metadata record. *)
Definition with_metadata `{Embedder} (c : Collection) : Prop :=
  Forall (λ r, is_Some (e_metadata r.2)) c.

(** The metadata records of the entries of such a collection. *)
Definition records `{Embedder} (c : Collection) : list Metadata :=
  (λ r, default ∅ (e_metadata r.2)) <$> c.

(** The records of a batch that [collection.add] writes into a collection
    with the ids [ids]: those whose id is not there yet, nor earlier in
    the batch. *)
Fixpoint written `{Embedder} (ids : list str) (batch : list (str * Entry))
  : list (str * Entry) :=
  match batch with
  | [] => []
  | r :: rest =>
      if bool_decide (r.1 ∈ ids) then written ids rest
      else r :: written (ids ++ [r.1]) rest
  end.


(** A store with one fragment of the page [s] and one of the uploaded
    file [s]. *)
Definition mixed_store : VectorStore :=
  (add_document (H := length_embedder) (py "world")
     {[ py "source" := VStr (py "s") ]}
     (add_document (H := length_embedder) (py "hello")
        {[ py "url" := VStr (py "s") ]} empty_store).2).2.

(** Membership in a Python set of metadata values, and a list that holds
    no two equal values. *)
Definition in_set (v : value) (l : list value) : Prop :=
  existsb (py_eqb v) l = true.

Fixpoint distinct_values (l : list value) : Prop :=
  match l with
  | [] => True
  | x :: rest => existsb (py_eqb x) rest = false ∧ distinct_values rest
  end.

(** The metadata that the [/process] route hands to [add_document] for
    the page of [source_url] whose scrape is [r]. *)
Definition process_metadata (source_url : str) (r : ScrapeResult) : Metadata :=
  <[py "title" := VStr (pm_title (sr_metadata r))]>
    {[ py "url" := VStr source_url ]}.

(** A value that Python takes for false: [None] or the empty string. *)
Definition falsy (o : option str) : Prop := o = None ∨ o = Some [].

(** A toy network whose every page is blank. *)
Definition blank_page_web : Web :=
  {| urlparse_scheme := λ u, Some (scheme_of u);
     urlparse_netloc := λ u, drop 7 u;
     requests_get := λ _, Some [32; 10; 9; 32]%N;
     html_to_text := λ h, h;
     soup_title := λ _, None;
     soup_og_title := λ _, None;
     soup_description := λ _, None;
     soup_og_description := λ _, None |}.


(* ===================================================================== *)
(** * Part II: properties *)
(* ===================================================================== *)

(** ** Strings, encoding and the digest *)

(** The test suite of RFC 1321, and inputs around the padding boundary. *)
Example md5_rfc1321 :
  md5_hex (py "") = Ok (py "d41d8cd98f00b204e9800998ecf8427e")
  ∧ md5_hex (py "a") = Ok (py "0cc175b9c0f1b6a831c399e269772661")
  ∧ md5_hex (py "abc") = Ok (py "900150983cd24fb0d6963f7d28e17f72")
  ∧ md5_hex (replicate 55 120%N) = Ok (py "04364420e25c512fd958a70738aa8f72")
  ∧ md5_hex (replicate 56 120%N) = Ok (py "668a72d5ba17f08e62dabcafad6db14b")
  ∧ md5_hex (replicate 64 120%N) = Ok (py "c1bb4f81d892b2d57947682aeb252456")
  ∧ md5_hex (replicate 120 120%N) = Ok (py "fb98667f98096de92620b64f46e1c5b5").
Proof. vm_compute. repeat split; reflexivity. Qed.

(** Text outside ASCII is hashed through its UTF-8 encoding, and a lone
    surrogate cannot be encoded. *)
Example md5_unicode :
  md5_hex [233; 8364; 128512]%N = Ok (py "3b07a39fef0ac5d7ef21575e7315a482")
  ∧ md5_hex [55296]%N = Raise UnicodeEncodeError.
Proof. vm_compute. split; reflexivity. Qed.

Example str_of_int :
  str_of_nat 120 = py "120" ∧ str_of_nat 0 = py "0" ∧ str_of_Z (-42) = py "-42".
Proof. vm_compute. repeat split; reflexivity. Qed.

Lemma utf8_char_scalar (c : N) : is_scalar c = true → is_Some (utf8_char c).
Proof.
  unfold is_scalar, utf8_char. intros Hc.
  apply orb_true_iff in Hc.
  rewrite andb_true_iff, !N.ltb_lt in Hc.
  destruct (Z.ltb_spec (Z.of_N c) 0x80); [eauto|].
  destruct (Z.ltb_spec (Z.of_N c) 0x800); [eauto|].
  destruct (Z.ltb_spec (Z.of_N c) 0x10000).
  - destruct (Z.leb_spec 0xD800 (Z.of_N c)), (Z.leb_spec (Z.of_N c) 0xDFFF);
      simpl; eauto; exfalso; lia.
  - destruct (Z.ltb_spec (Z.of_N c) 0x110000); [eauto|]. exfalso; lia.
Qed.

Lemma encode_chars_scalar (s : str) :
  Forall (λ c, is_scalar c = true) s → is_Some (encode_chars s).
Proof.
  induction 1 as [|c s Hc _ IH]; simpl; [eauto|].
  destruct (utf8_char_scalar c Hc) as [b ->]. destruct IH as [bs ->]. eauto.
Qed.

Lemma encode_scalar (s : str) :
  Forall (λ c, is_scalar c = true) s → ∃ b, str_encode s = Ok b.
Proof.
  intros Hs. unfold str_encode. destruct (encode_chars_scalar s Hs) as [b ->]. eauto.
Qed.

Lemma digest_length (msg : bytes) : length (MD5.digest msg) = 16%nat.
Proof.
  unfold MD5.digest.
  destruct (MD5.blocks _ _ _) as [[[a b] c] d]. reflexivity.
Qed.

Lemma hex_digit_is_hex (n : Z) : is_hex_digit (MD5.hex_digit n) = true.
Proof.
  unfold MD5.hex_digit. generalize (Z.to_nat n). intros k.
  do 16 (destruct k as [|k]; [reflexivity|]). destruct k; reflexivity.
Qed.

Lemma hexdigest_length (msg : bytes) : length (MD5.hexdigest msg) = 32%nat.
Proof.
  unfold MD5.hexdigest. pose proof (digest_length msg) as Hlen.
  revert Hlen. generalize (MD5.digest msg). intros bs Hlen.
  do 16 (destruct bs as [|? bs]; [discriminate Hlen|]).
  destruct bs; [reflexivity | discriminate Hlen].
Qed.

Lemma hexdigest_hex (msg : bytes) :
  Forall (λ c, is_hex_digit c = true) (MD5.hexdigest msg).
Proof.
  unfold MD5.hexdigest. induction (MD5.digest msg) as [|b bs IH]; simpl.
  - constructor.
  - repeat constructor; auto using hex_digit_is_hex.
Qed.

Lemma generate_id_Ok (text url id : str) :
  _generate_id text url = Ok id →
  length id = 32%nat ∧ Forall (λ c, is_hex_digit c = true) id.
Proof.
  unfold _generate_id, md5_hex, mbind, res_mbind, res_bind.
  destruct (str_encode _) as [b|e]; [|discriminate].
  intros [= <-]. split; [apply hexdigest_length | apply hexdigest_hex].
Qed.

Lemma generate_id_prefix (c1 c2 url : str) :
  take 100 c1 = take 100 c2 → _generate_id c1 url = _generate_id c2 url.
Proof. unfold _generate_id. by intros ->. Qed.

Lemma generate_id_scalar (text url : str) :
  Forall (λ c, is_scalar c = true) url →
  Forall (λ c, is_scalar c = true) (take 100 text) →
  ∃ id, _generate_id text url = Ok id.
Proof.
  intros Hu Ht. unfold _generate_id, md5_hex.
  destruct (encode_scalar (url ++ py ":" ++ take 100 text)) as [b Hb].
  { apply Forall_app; split; [done|]. apply Forall_app; split; [|done].
    by repeat constructor. }
  rewrite Hb. simpl. eauto.
Qed.

Lemma digits_scalar (u : Decimal.uint) :
  Forall (λ c, is_scalar c = true) (digits_of_uint u).
Proof. induction u; simpl; constructor; auto. Qed.

(** C3.  The fragment id is the MD5 digest, as 32 lower-case hexadecimal
    digits, of the UTF-8 encoding of the text made of the source
    identifier, the position and the first 100 characters of the chunk,
    and of nothing else: chunks that agree on their first 100 characters
    get the same id at the same source and position, and an id is
    produced whenever the source identifier and the prefix can be
    encoded. *)
Theorem chunk_id_prefix_digest (s : value) (i : nat) (c1 c2 : str) :
  take 100 c1 = take 100 c2 →
  chunk_id s i c1
  = (data ← str_encode (id_text s i c1); Ok (MD5.hexdigest data))
  ∧ chunk_id s i c1 = chunk_id s i c2
  ∧ (∀ id, chunk_id s i c1 = Ok id →
       length id = 32%nat ∧ Forall (λ c, is_hex_digit c = true) id)
  ∧ (Forall (λ c, is_scalar c = true) (py_str s) →
     Forall (λ c, is_scalar c = true) (take 100 c1) →
     ∃ id, chunk_id s i c1 = Ok id).
Proof.
  intros Hpre. unfold chunk_id. split.
  { unfold _generate_id, md5_hex, id_text. cbv zeta. by rewrite <- !app_assoc. }
  split; [by apply generate_id_prefix|].
  split; [intros id; apply generate_id_Ok|].
  intros Hs Hc. apply generate_id_scalar; [|done].
  apply Forall_app; split; [done|]. apply Forall_app; split.
  - by repeat constructor.
  - apply digits_scalar.
Qed.

Lemma chunk_id_prefix_digest_witness :
  take 100 (replicate 100 120%N ++ py "left") = take 100 (replicate 100 120%N ++ py "right")
  ∧ str_encode (id_text (VStr (py "u1")) 0 (replicate 100 120%N ++ py "left"))
    = Ok ([117; 49; 95; 48; 58] ++ replicate 100 120)
  ∧ chunk_id (VStr (py "u1")) 0 (replicate 100 120%N ++ py "left")
    = Ok (py "9868c6dceba58bda672e6bc0ade5b3f6")
  ∧ chunk_id (VStr (py "u1")) 0 (replicate 100 120%N ++ py "right")
    = Ok (py "9868c6dceba58bda672e6bc0ade5b3f6").
Proof.
  pose proof (chunk_id_prefix_digest (VStr (py "u1")) 0
                (replicate 100 120%N ++ py "left")
                (replicate 100 120%N ++ py "right") eq_refl) as (Hmd5 & Heq & _).
  assert (Henc : str_encode (id_text (VStr (py "u1")) 0
                               (replicate 100 120%N ++ py "left"))
                 = Ok ([117; 49; 95; 48; 58] ++ replicate 100 120))
    by (vm_compute; reflexivity).
  split; [reflexivity|]. split; [exact Henc|].
  split; [|rewrite <- Heq]; rewrite Hmd5, Henc; vm_compute; reflexivity.
Defined.

(** ** The chunker *)

Section ChunkerFacts.
Variable self : RecursiveCharacterTextSplitter.
Hypothesis chunk_size_gt_1 : 1 < _chunk_size self.

Local Abbreviation fits := (fits_in self).
Local Abbreviation short := (shorter_than self).

Lemma total_len_nonneg docs : 0 ≤ total_len docs.
Proof. induction docs; simpl; unfold len in *; lia. Qed.

Lemma total_len_app docs d : total_len (docs ++ [d]) = total_len docs + len d.
Proof. induction docs; simpl; lia. Qed.

Lemma join_empty_len docs : len (join [] docs) = total_len docs.
Proof.
  induction docs as [|d [|d' docs] IH]; simpl in *; unfold len in *.
  - done.
  - lia.
  - rewrite length_app. simpl in IH. lia.
Qed.

Lemma lstrip_length s : (length (lstrip s) ≤ length s)%nat.
Proof. induction s; simpl; [done|]. case_match; simpl; lia. Qed.

Lemma strip_length s : (length (strip s) ≤ length s)%nat.
Proof.
  unfold strip, rstrip. rewrite length_rev.
  etrans; [apply lstrip_length|]. rewrite length_rev. apply lstrip_length.
Qed.

Lemma join_docs_len docs t :
  _join_docs docs [] = Some t → len t ≤ total_len docs.
Proof.
  unfold _join_docs. case_match; [|done]. intros [= <-].
  rewrite <- join_empty_len. unfold len. pose proof (strip_length (join [] docs)). lia.
Qed.

(** The popping loop keeps [total] the length of [current_doc], and ends
    with room for the next piece. *)
Lemma pop_while_spec _len cur total cur' total' :
  total = total_len cur →
  pop_while self 0 _len cur total = (cur', total') →
  total' = total_len cur' ∧ (total' + _len ≤ _chunk_size self ∨ total' = 0).
Proof.
  revert total. induction cur as [|d0 rest IH]; intros total Htot; simpl.
  - intros [= <- <-]. auto.
  - destruct (pop_cond self 0 _len (d0 :: rest) total) eqn:Hc.
    + intros Hp. eapply IH; [|exact Hp].
      simpl in Htot. case_match; lia.
    + intros [= <- <-]. split; [done|].
      unfold pop_cond in Hc. apply orb_false_iff in Hc as [_ Hc].
      apply andb_false_iff in Hc.
      pose proof (total_len_nonneg (d0 :: rest)).
      destruct Hc as [Hc|Hc]; [left | right].
      * destruct (0 <? len (d0 :: rest)); lia.
      * lia.
Qed.

(** On an empty [current_doc] the loop guard is false: the source never
    reads [current_doc[0]] of an empty list. *)
Lemma pop_cond_empty separator_len _len :
  0 ≤ _chunk_overlap self → pop_cond self separator_len _len [] 0 = false.
Proof. intros Ho. unfold pop_cond. simpl. rewrite andb_false_r. lia. Qed.

Lemma merge_step_inv st d :
  short d → merge_inv self st → merge_inv self (merge_step self [] st d).
Proof.
  destruct st as [[docs cur] total]. intros Hd (Hdocs & Htot & Hle).
  unfold merge_step. change (len (@nil N)) with 0.
  assert (Hj : Forall fits (docs ++ option_list (_join_docs cur []))).
  { apply Forall_app; split; [done|].
    destruct (_join_docs cur []) as [t|] eqn:Hjoin; simpl; [|constructor].
    constructor; [|constructor]. apply join_docs_len in Hjoin. unfold fits_in. lia. }
  unfold shorter_than in Hd.
  destruct (_ >? _chunk_size self) eqn:Hbig.
  - destruct (0 <? len cur) eqn:Hne.
    + destruct (pop_while self 0 (len d) cur total) as [cur' total'] eqn:Hp.
      apply pop_while_spec in Hp as [Htot' Hroom]; [|done].
      unfold merge_inv. rewrite total_len_app.
      split; [done|]. split; [destruct (1 <? _); lia|].
      destruct (1 <? _); lia.
    + unfold merge_inv. rewrite total_len_app.
      assert (cur = []) as ->.
      { destruct cur; [done|]. unfold len in Hne. rewrite length_cons in Hne. bool_to_prop. lia. }
      simpl in *. split; [done|]. lia.
  - unfold merge_inv. rewrite total_len_app. split; [done|].
    destruct (0 <? len cur), (1 <? len (cur ++ [d])); lia.
Qed.

Lemma merge_fold_inv splits st :
  Forall short splits → merge_inv self st →
  merge_inv self (fold_left (merge_step self []) splits st).
Proof.
  intros Hs. revert st. induction Hs as [|d splits Hd _ IH]; intros st Hst; simpl.
  - done.
  - apply IH. by apply merge_step_inv.
Qed.

(** Merging short pieces yields chunks within the bound. *)
Lemma merge_splits_fits splits :
  Forall short splits → Forall fits (_merge_splits self splits []).
Proof.
  intros Hs. unfold _merge_splits.
  pose proof (merge_fold_inv splits ([], [], 0) Hs) as Hinv.
  destruct (fold_left _ splits _) as [[docs cur] total].
  destruct Hinv as (Hdocs & Htot & Hle).
  { repeat split; [constructor | simpl; lia]. }
  apply Forall_app; split; [done|].
  destruct (_join_docs cur []) as [t|] eqn:Hjoin; simpl; [|constructor].
  constructor; [|constructor]. apply join_docs_len in Hjoin. unfold fits_in. lia.
Qed.

Lemma split_fold_fits recur splits final good :
  recur_fits self recur splits → Forall fits final → Forall short good →
  let '(final', good') := fold_left (split_step self recur) splits (final, good) in
  Forall fits final' ∧ Forall short good'.
Proof.
  revert final good.
  induction splits as [|s splits IH]; intros final good Hr Hf Hg; cbn [fold_left].
  - done.
  - assert (Hr' : recur_fits self recur splits).
    { destruct recur; [done|]. simpl in *. by inversion Hr. }
    destruct (split_step self recur (final, good) s) as [final1 good1] eqn:Hstep.
    enough (Forall fits final1 ∧ Forall short good1) as [? ?] by by apply IH.
    unfold split_step in Hstep.
    destruct (len s <? _chunk_size self) eqn:Hs.
    + injection Hstep as <- <-. split; [done|].
      apply Forall_app; split; [done|]. bool_to_prop.
      constructor; [done | constructor].
    + assert (Hm : Forall fits
                (if nonempty good then final ++ _merge_splits self good [] else final)).
      { destruct (nonempty good); [|done].
        apply Forall_app; split; [done | by apply merge_splits_fits]. }
      destruct recur as [f|].
      * injection Hstep as <- <-. split; [|constructor].
        apply Forall_app; split; [done | apply Hr].
      * simpl in Hr. inversion Hr as [|?? Hshort]. unfold shorter_than in Hshort.
        bool_to_prop. lia.
Qed.

Lemma split_with_fits separator recur text :
  recur_fits self recur (_split_text_with_regex text separator) →
  Forall fits (split_with self separator recur text).
Proof.
  intros Hr. unfold split_with.
  pose proof (split_fold_fits recur _ [] [] Hr) as Hfold.
  destruct (fold_left _ _ _) as [final good].
  destruct Hfold as [Hf Hg]; [constructor | constructor |].
  destruct (nonempty good); [|done].
  apply Forall_app; split; [done | by apply merge_splits_fits].
Qed.

(** Splitting on the empty separator gives single characters. *)
Lemma split_chars_short text : Forall short (_split_text_with_regex text []).
Proof.
  unfold _split_text_with_regex. simpl.
  apply Forall_forall. intros s Hs.
  apply list_elem_of_filter in Hs as [_ Hs].
  apply list_elem_of_fmap in Hs as (c & -> & _).
  unfold shorter_than, len. simpl. lia.
Qed.

(** With the empty string as the last separator, every chunk is within
    the bound, whatever the text. *)
Lemma split_text_from_fits separators text :
  Forall fits (_split_text_from self [] (separators ++ [[]]) text).
Proof.
  revert text. induction separators as [|_s rest IH]; intros text; simpl.
  - apply split_with_fits. apply split_chars_short.
  - destruct (nonempty _s); simpl.
    + destruct (contains _s text); [|apply IH].
      apply split_with_fits.
      destruct (rest ++ [[]]) eqn:Hrest; [by destruct rest|].
      simpl. apply IH.
    + apply split_with_fits. apply split_chars_short.
Qed.

(** *** Whitespace-only text *)

Lemma lstrip_blank s : blank s → lstrip s = [].
Proof. induction 1 as [|c s Hc _ IH]; simpl; [done|]. by rewrite Hc. Qed.

Lemma strip_blank s : blank s → strip s = [].
Proof. intros Hs. unfold strip. by rewrite lstrip_blank. Qed.

Lemma join_blank docs : Forall blank docs → blank (join [] docs).
Proof.
  induction 1 as [|d docs Hd Hdocs IH]; simpl; [constructor|].
  destruct docs; [done|]. apply Forall_app; split; [done|]. apply IH.
Qed.

Lemma join_docs_blank docs : Forall blank docs → _join_docs docs [] = None.
Proof.
  intros Hd. unfold _join_docs. by rewrite (strip_blank _ (join_blank _ Hd)).
Qed.

Lemma pop_while_sublist separator_len _len cur total :
  (pop_while self separator_len _len cur total).1 `suffix_of` cur.
Proof.
  revert total. induction cur as [|d0 rest IH]; intros total; simpl; [done|].
  destruct (pop_cond _ _ _ _ _); simpl; [|done].
  by apply suffix_cons_r.
Qed.

Lemma merge_step_blank st d :
  blank d → st.1.1 = [] ∧ Forall blank st.1.2 →
  (merge_step self [] st d).1.1 = [] ∧ Forall blank (merge_step self [] st d).1.2.
Proof.
  destruct st as [[docs cur] total]. simpl. intros Hd [-> Hcur].
  unfold merge_step. rewrite (join_docs_blank _ Hcur). simpl.
  pose proof (pop_while_sublist (len (@nil N)) (len d) cur total) as Hsuf.
  destruct (pop_while _ _ _ cur total) as [cur' total'].
  assert (Forall blank cur').
  { simpl in Hsuf. destruct Hsuf as [k ->]. by apply Forall_app in Hcur as [_ ?]. }
  repeat case_match; simplify_eq/=; (split; [done|]);
    apply Forall_app; split; done || by repeat constructor.
Qed.

Lemma merge_fold_blank splits st :
  Forall blank splits → st.1.1 = [] ∧ Forall blank st.1.2 →
  (fold_left (merge_step self []) splits st).1.1 = []
  ∧ Forall blank (fold_left (merge_step self []) splits st).1.2.
Proof.
  intros Hs. revert st. induction Hs as [|d splits Hd _ IH]; intros st Hst; simpl.
  - done.
  - apply IH. by apply merge_step_blank.
Qed.

Lemma merge_splits_blank splits :
  Forall blank splits → _merge_splits self splits [] = [].
Proof.
  intros Hs. unfold _merge_splits.
  pose proof (merge_fold_blank splits ([], [], 0) Hs) as Hinv.
  destruct (fold_left _ splits _) as [[docs cur] total]. simpl in Hinv.
  destruct Hinv as [-> Hcur]; [by split|].
  by rewrite (join_docs_blank _ Hcur).
Qed.

Lemma startswith_Forall (P : N → Prop) text pre :
  startswith text pre = true → Forall P text → Forall P pre.
Proof.
  revert text. induction pre as [|p pre IH]; intros text; simpl; [constructor|].
  destruct text as [|c text]; [done|].
  intros [Hpc Hrest]%andb_true_iff Htext. apply N.eqb_eq in Hpc as ->.
  inversion Htext; subst. constructor; eauto.
Qed.

Lemma re_split_go_blank sep text skip cur :
  blank text → blank cur → Forall blank (re_split_go sep text skip cur).
Proof.
  intros Ht. revert skip cur.
  induction Ht as [|c text Hc Ht IH]; intros skip cur Hcur; cbn [re_split_go].
  - by constructor.
  - destruct skip as [|k]; [|by apply IH].
    destruct (startswith (c :: text) sep) eqn:Hsw.
    + constructor; [done|]. constructor.
      * eapply startswith_Forall; [exact Hsw | by constructor].
      * apply IH. constructor.
    + apply IH. apply Forall_app; split; [done | by repeat constructor].
Qed.

Lemma pair_up_blank l : Forall blank l → Forall blank (pair_up l).
Proof.
  assert (Hn : ∀ n l, (length l ≤ n)%nat → Forall blank l → Forall blank (pair_up l)).
  { clear l. induction n as [|n IH]; intros [|a [|b l]] Hlen Hl; simpl in *;
      try constructor; try lia.
    - inversion Hl as [|?? Ha Hl']; inversion Hl' as [|?? Hb Hl'']; subst.
      apply Forall_app; by split.
    - apply IH; [lia|]. inversion Hl as [|?? Ha Hl']; by inversion Hl'. }
  by apply (Hn (length l)).
Qed.

(** The pieces of a whitespace-only text are whitespace-only. *)
Lemma split_regex_blank text separator :
  blank text → Forall blank (_split_text_with_regex text separator).
Proof.
  intros Ht. unfold _split_text_with_regex.
  apply Forall_forall. intros s [_ Hs]%list_elem_of_filter. revert s Hs.
  apply Forall_forall. destruct (nonempty separator).
  - pose proof (re_split_go_blank separator text 0 [] Ht (Forall_nil_2 _)) as Hsp.
    fold (re_split_capture separator text) in Hsp.
    destruct (re_split_capture separator text) as [|first others] eqn:Hre; [constructor|].
    inversion Hsp as [|?? Hfirst Hothers]; subst. constructor; [done|].
    destruct (Nat.even _); [|by apply pair_up_blank].
    apply Forall_app; split; [by apply pair_up_blank|].
    destruct (last (first :: others)) as [x|] eqn:Hlast; simpl; [|constructor].
    constructor; [|constructor].
    apply last_Some_elem_of in Hlast. by eapply Forall_forall in Hlast.
  - apply Forall_fmap. eapply Forall_impl; [exact Ht|].
    intros c Hc. by repeat constructor.
Qed.

Lemma split_fold_blank recur splits good :
  recur_blank self recur splits → Forall blank splits → Forall blank good →
  (fold_left (split_step self recur) splits ([], good)).1 = []
  ∧ Forall blank (fold_left (split_step self recur) splits ([], good)).2.
Proof.
  revert good.
  induction splits as [|s splits IH]; intros good Hr Hs Hg; cbn [fold_left].
  - done.
  - inversion Hs as [|?? Hsb Hs']; subst.
    assert (Hr' : recur_blank self recur splits).
    { destruct recur; [done|]. simpl in *. by inversion Hr. }
    assert (Hstep : split_step self recur ([], good) s = ([], good ++ [s])
                    ∨ split_step self recur ([], good) s = ([], [])).
    { unfold split_step. destruct (len s <? _chunk_size self) eqn:Hlen; [by left|].
      right. destruct recur as [f|].
      - rewrite (Hr s Hsb), (merge_splits_blank good Hg).
        by destruct (nonempty good).
      - simpl in Hr. inversion Hr as [|?? Hshort]. unfold shorter_than in Hshort.
        bool_to_prop. lia. }
    destruct Hstep as [-> | ->]; apply IH; try done.
    apply Forall_app; split; [done | by repeat constructor].
Qed.

Lemma split_with_blank separator recur text :
  recur_blank self recur (_split_text_with_regex text separator) → blank text →
  split_with self separator recur text = [].
Proof.
  intros Hr Ht. unfold split_with.
  pose proof (split_fold_blank recur _ [] Hr (split_regex_blank text separator Ht)
                (Forall_nil_2 _)) as Hfold.
  destruct (fold_left _ _ _) as [final good]. simpl in Hfold.
  destruct Hfold as [-> Hg].
  rewrite (merge_splits_blank good Hg). by destruct (nonempty good).
Qed.

(** A whitespace-only text yields no chunk at all. *)
Lemma split_text_from_blank separators text :
  blank text → _split_text_from self [] (separators ++ [[]]) text = [].
Proof.
  revert text. induction separators as [|_s rest IH]; intros text Ht; simpl.
  - apply split_with_blank; [apply split_chars_short | done].
  - destruct (nonempty _s); simpl.
    + destruct (contains _s text); [|by apply IH].
      apply split_with_blank; [|done].
      destruct (rest ++ [[]]) eqn:Hrest; [by destruct rest|].
      simpl. intros s Hs. by apply IH.
    + apply split_with_blank; [apply split_chars_short | done].
Qed.

End ChunkerFacts.

Lemma text_splitter_separators :
  _separators text_splitter = [[10; 10]%N; [10]%N; py ". "; py " "] ++ [[]].
Proof. reflexivity. Qed.

Lemma split_text_unfold text :
  split_text text_splitter text
  = _split_text_from text_splitter [] ([[10; 10]%N; [10]%N; py ". "; py " "] ++ [[]]) text.
Proof. reflexivity. Qed.

(** Empty and whitespace-only content has no chunks. *)
Lemma split_text_blank (content : str) :
  Forall (λ c, isspace c = true) content → split_text text_splitter content = [].
Proof.
  intros Hc. rewrite split_text_unfold.
  apply split_text_from_blank; [reflexivity | done].
Qed.

(** C9.  Modelled chunker, configured as in [VectorStore.__init__]: every
    chunk of every text has at most 1000 characters.  The last configured
    separator is the empty string, so no run of text is unsplittable and
    the exception of the claim never applies; the splitter is a total
    function (a structural recursion over the separator list), so it
    returns on every text, unbroken ones included. *)
Theorem split_text_chunk_bound (text : str) :
  Forall (λ chunk, len chunk ≤ 1000) (split_text text_splitter text).
Proof.
  rewrite split_text_unfold.
  apply (split_text_from_fits text_splitter); reflexivity.
Qed.

(** An unbroken run of 2500 characters is cut into chunks of at most 1000
    characters that overlap by 200. *)
Example split_text_unbroken :
  length <$> split_text text_splitter (replicate 2500 120%N) = [1000; 1000; 900]%nat.
Proof. vm_compute. reflexivity. Qed.

(** ** The collection *)

Section StoreFacts.
Context `{Embedder}.

Lemma has_id_true (c : Collection) id : has_id c id = true ↔ id ∈ c.*1.
Proof. unfold has_id. apply bool_decide_eq_true. Qed.

Lemma has_id_false (c : Collection) id : has_id c id = false ↔ id ∉ c.*1.
Proof. unfold has_id. apply bool_decide_eq_false. Qed.

Lemma lookup_id_app (c1 c2 : Collection) id :
  lookup_id (c1 ++ c2) id
  = match lookup_id c1 id with Some e => Some e | None => lookup_id c2 id end.
Proof.
  induction c1 as [|[k e] c1 IH]; simpl; [done|]. by case_decide.
Qed.

Lemma lookup_id_None (c : Collection) id : id ∉ c.*1 → lookup_id c id = None.
Proof.
  induction c as [|[k e] c IH]; simpl; [done|].
  intros Hid. apply not_elem_of_cons in Hid as [Hne Hid].
  rewrite decide_False by congruence. by apply IH.
Qed.

Lemma lookup_id_is_Some (c : Collection) id : id ∈ c.*1 → is_Some (lookup_id c id).
Proof.
  induction c as [|[k e] c IH]; simpl; [by intros ?%elem_of_nil|].
  intros Hid. destruct (decide (k = id)) as [|Hne]; [eauto|].
  apply IH. apply elem_of_cons in Hid as [Heq|Hid]; [|done]. simpl in Heq. congruence.
Qed.

(** Writing a record never touches an entry that is already there. *)
Lemma add_record_lookup_old (c : Collection) r id :
  id ∈ c.*1 → lookup_id (add_record c r) id = lookup_id c id.
Proof.
  intros Hid. unfold add_record. destruct (has_id c r.1); [done|].
  rewrite lookup_id_app. by destruct (lookup_id_is_Some c id Hid) as [e ->].
Qed.

Lemma add_record_ids (c : Collection) r id :
  id ∈ (add_record c r).*1 ↔ id ∈ c.*1 ∨ id = r.1.
Proof.
  unfold add_record. destruct (has_id c r.1) eqn:Hr.
  - apply has_id_true in Hr. split; [auto|]. by intros [?| ->].
  - rewrite fmap_app, elem_of_app. simpl. rewrite list_elem_of_singleton. done.
Qed.

Lemma add_record_lookup_new (c : Collection) id e :
  id ∉ c.*1 → lookup_id (add_record c (id, e)) id = Some e.
Proof.
  intros Hid. unfold add_record. simpl.
  apply has_id_false in Hid as Hf. rewrite Hf, lookup_id_app, lookup_id_None by done.
  simpl. by case_decide.
Qed.

Lemma add_record_unique (c : Collection) r :
  unique_ids c → unique_ids (add_record c r).
Proof.
  unfold unique_ids, add_record. intros Hc. destruct (has_id c r.1) eqn:Hr; [done|].
  apply has_id_false in Hr. rewrite fmap_app. apply NoDup_app.
  split; [done|]. split; [|apply NoDup_singleton].
  intros x Hx Hx'. apply list_elem_of_singleton in Hx'. by subst.
Qed.

Lemma add_records_ids (batch : list (str * Entry)) (c : Collection) id :
  id ∈ (fold_left add_record batch c).*1 ↔ id ∈ c.*1 ∨ id ∈ batch.*1.
Proof.
  revert c. induction batch as [|r batch IH]; intros c; simpl.
  - rewrite elem_of_nil. tauto.
  - rewrite IH, add_record_ids, elem_of_cons. tauto.
Qed.

Lemma add_records_lookup_old (batch : list (str * Entry)) (c : Collection) id :
  id ∈ c.*1 → lookup_id (fold_left add_record batch c) id = lookup_id c id.
Proof.
  revert c. induction batch as [|r batch IH]; intros c Hid; simpl; [done|].
  rewrite IH by (apply add_record_ids; auto). by apply add_record_lookup_old.
Qed.

(** A record of the batch whose id is new is the entry stored under
    that id afterwards. *)
Lemma add_records_lookup_new (batch : list (str * Entry)) (c : Collection) i id e :
  NoDup batch.*1 → batch !! i = Some (id, e) → id ∉ c.*1 →
  lookup_id (fold_left add_record batch c) id = Some e.
Proof.
  revert c i. induction batch as [|[k e'] batch IH]; intros c i Hnd Hi Hid; [done|].
  simpl in Hnd. apply NoDup_cons in Hnd as [Hk Hnd]. simpl.
  destruct i as [|i]; simpl in Hi.
  - injection Hi as -> ->.
    rewrite add_records_lookup_old by (apply add_record_ids; auto).
    by apply add_record_lookup_new.
  - apply (IH _ i); [done | done |].
    rewrite add_record_ids. simpl. intros [?| ->]; [done|].
    apply Hk. apply list_elem_of_fmap. exists (k, e). split; [done|].
    by eapply list_elem_of_lookup_2.
Qed.

(** A batch whose ids are all there already changes nothing. *)
Lemma add_records_all_old (batch : list (str * Entry)) (c : Collection) :
  Forall (λ r, r.1 ∈ c.*1) batch → fold_left add_record batch c = c.
Proof.
  induction 1 as [|r batch Hr _ IH]; simpl; [done|].
  unfold add_record at 2. apply has_id_true in Hr. by rewrite Hr.
Qed.

Lemma add_records_unique (batch : list (str * Entry)) (c : Collection) :
  unique_ids c → unique_ids (fold_left add_record batch c).
Proof.
  revert c. induction batch as [|r batch IH]; intros c Hc; simpl; [done|].
  by apply IH, add_record_unique.
Qed.

Lemma add_records_length (batch : list (str * Entry)) (c : Collection) :
  (length c ≤ length (fold_left add_record batch c))%nat.
Proof.
  revert c. induction batch as [|r batch IH]; intros c; simpl; [done|].
  etrans; [|apply IH]. unfold add_record. destruct (has_id c r.1); [done|].
  rewrite length_app. lia.
Qed.

(** *** The batch of [add_document] *)

Lemma chunk_ids_length url i chunks ids :
  chunk_ids url i chunks = Ok ids → length ids = length chunks.
Proof.
  revert i ids. induction chunks as [|chunk rest IH]; intros i ids; simpl.
  - by intros [= <-].
  - unfold mbind, res_mbind, res_bind.
    destruct (chunk_id url i chunk) as [id|]; [|done].
    destruct (chunk_ids url (S i) rest) as [ids'|] eqn:Hrest; [|done].
    intros [= <-]. simpl. f_equal. by eapply IH.
Qed.

Lemma chunk_ids_lookup url i chunks ids k chunk :
  chunk_ids url i chunks = Ok ids → chunks !! k = Some chunk →
  ∃ id, ids !! k = Some id ∧ chunk_id url (i + k) chunk = Ok id.
Proof.
  revert i ids k. induction chunks as [|c rest IH]; intros i ids k; simpl; [done|].
  unfold mbind, res_mbind, res_bind.
  destruct (chunk_id url i c) as [id|] eqn:Hid; [|done].
  destruct (chunk_ids url (S i) rest) as [ids'|] eqn:Hrest; [|done].
  intros [= <-]. destruct k as [|k]; simpl.
  - intros [= <-]. exists id. by rewrite Nat.add_0_r.
  - intros Hk. destruct (IH _ _ _ Hrest Hk) as (id' & ? & ?).
    exists id'. by rewrite <- Nat.add_succ_comm.
Qed.

Lemma fragments_length metadata total i chunks :
  length (fragments metadata total i chunks) = length chunks.
Proof. revert i. induction chunks; intros i; simpl; [done|]. by rewrite IHchunks. Qed.

Lemma fragments_lookup metadata total i chunks k chunk :
  chunks !! k = Some chunk →
  fragments metadata total i chunks !! k = Some (fragment metadata total (i + k) chunk).
Proof.
  revert i k. induction chunks as [|c rest IH]; intros i k; simpl; [done|].
  destruct k as [|k]; simpl.
  - intros [= <-]. by rewrite Nat.add_0_r.
  - intros Hk. rewrite (IH (S i) k Hk). by rewrite <- Nat.add_succ_comm.
Qed.

(** The loop of [add_document] computes the ids, the metadata records
    and the documents of the batch, or raises what the id derivation
    raises. *)
Lemma build_batch_spec url metadata total i chunks ids metadatas documents :
  build_batch url metadata total i chunks (ids, metadatas, documents)
  = (new_ids ← chunk_ids url i chunks;
     Ok (ids ++ new_ids,
         metadatas ++ chunk_metadatas metadata total i chunks,
         documents ++ chunks)).
Proof.
  revert i ids metadatas documents.
  induction chunks as [|chunk rest IH]; intros i ids metadatas documents; simpl.
  - unfold mbind, res_mbind, res_bind. by rewrite !app_nil_r.
  - unfold mbind, res_mbind, res_bind in *.
    destruct (chunk_id url i chunk) as [id|]; [|done].
    rewrite IH. destruct (chunk_ids url (S i) rest) as [ids'|]; [|done].
    by rewrite <- !app_assoc.
Qed.

Lemma chunk_metadatas_length metadata total i chunks :
  length (chunk_metadatas metadata total i chunks) = length chunks.
Proof. revert i. induction chunks; intros i; simpl; [done|]. by rewrite IHchunks. Qed.

Lemma zip_entries_fragments metadata total i chunks :
  zip_entries (model_encode <$> chunks)
    (chunk_metadatas metadata total i chunks) chunks
  = fragments metadata total i chunks.
Proof. revert i. induction chunks; intros i; simpl; [done|]. by rewrite IHchunks. Qed.

(** [add_document], case by case. *)
Lemma add_document_unfold content metadata st :
  add_document content metadata st
  = let chunks := split_text text_splitter content in
    if negb (nonempty chunks) then (Ok 0, st)
    else match chunk_ids (get_url metadata) 0 chunks with
         | Raise e => (Raise e, st)
         | Ok ids =>
             if bool_decide (NoDup ids)
             then (Ok (len chunks), added metadata chunks ids st)
             else (Raise DuplicateIDError,
                   {| collection := collection st;
                      calls := calls st ++ [CallEncode chunks; CallAdd ids] |})
         end.
Proof.
  unfold add_document. cbv zeta.
  destruct (split_text text_splitter content) as [|c0 chunks0] eqn:Hchunks; [done|].
  cbn [nonempty negb]. set (chunks := c0 :: chunks0).
  unfold mbind at 1, M_mbind at 1, bind, lift.
  rewrite build_batch_spec. unfold mbind at 1, res_mbind at 1, res_bind.
  destruct (chunk_ids (get_url metadata) 0 chunks) as [ids|e] eqn:Hids; [|done].
  pose proof (chunk_ids_length _ _ _ _ Hids) as Hlen.
  rewrite !app_nil_l.
  unfold _get_embeddings, collection_add, mbind, M_mbind, bind, log, ret, lift,
    get_collection, put_collection. cbn [collection calls].
  assert (Hne : nonempty ids = true).
  { destruct ids; [discriminate Hlen | done]. }
  rewrite Hne. cbn [negb].
  rewrite bool_decide_eq_true_2; cycle 1.
  { rewrite length_fmap, chunk_metadatas_length. done. }
  cbn [negb]. rewrite zip_entries_fragments.
  destruct (bool_decide (NoDup ids)); cbn [negb].
  - unfold added. cbn [collection calls]. by rewrite <- app_assoc.
  - by rewrite <- app_assoc.
Qed.

(** *** Distinct ids are kept *)

Lemma add_document_unique content metadata st :
  unique_ids (collection st) →
  unique_ids (collection (add_document content metadata st).2).
Proof.
  intros Hu. rewrite add_document_unfold. cbv zeta.
  destruct (negb _); [done|].
  destruct (chunk_ids _ _ _) as [ids|e]; [|done].
  destruct (bool_decide (NoDup ids)); [|done].
  unfold added. cbn [snd collection]. by apply add_records_unique.
Qed.

Lemma delete_filter_unique (ids : list str) (c : Collection) :
  unique_ids c → unique_ids (filter (λ r, r.1 ∉ ids) c).
Proof.
  unfold unique_ids. intros Hu. eapply sublist_NoDup; [exact Hu|].
  apply fmap_sublist, sublist_filter.
Qed.
End StoreFacts.

(** ** Ingestion *)

Section IngestionFacts.
Context `{Embedder}.

Lemma zip_lookup_Some {A B} (l : list A) (k : list B) i a b :
  l !! i = Some a → k !! i = Some b → zip l k !! i = Some (a, b).
Proof.
  revert k i. induction l as [|x l IH]; intros [|y k] [|i]; simpl; try done.
  - by intros [= ->] [= ->].
  - apply IH.
Qed.

(** What a successful [add_document] did. *)
Lemma add_document_Ok content metadata st n st1 :
  add_document content metadata st = (Ok n, st1) →
  let chunks := split_text text_splitter content in
  (chunks = [] ∧ n = 0 ∧ st1 = st)
  ∨ (chunks ≠ [] ∧ ∃ ids,
       chunk_ids (get_url metadata) 0 chunks = Ok ids ∧ NoDup ids
       ∧ n = len chunks ∧ st1 = added metadata chunks ids st).
Proof.
  rewrite add_document_unfold. cbv zeta.
  destruct (split_text text_splitter content) as [|c0 chunks0] eqn:Hchunks.
  - intros [= <- <-]. by left.
  - cbn [nonempty negb]. intros Hadd. right. split; [done|].
    destruct (chunk_ids _ _ _) as [ids|e]; [|done].
    destruct (bool_decide (NoDup ids)) eqn:Hnd; [|done].
    apply bool_decide_eq_true in Hnd. injection Hadd as <- <-. eauto.
Qed.

Lemma added_batch_ids metadata chunks (ids : list str) :
  length ids = length chunks →
  (zip ids (fragments metadata (len chunks) 0 chunks)).*1 = ids.
Proof. intros Hlen. apply fst_zip. rewrite fragments_length. lia. Qed.

(** After [add_document], every id of the batch is in the collection. *)
Lemma added_has_ids metadata chunks ids st id :
  length ids = length chunks → id ∈ ids →
  id ∈ (collection (added metadata chunks ids st)).*1.
Proof.
  intros Hlen Hid. unfold added. cbn [collection].
  apply add_records_ids. right. by rewrite added_batch_ids.
Qed.

(** Entries that were there before [add_document] are still there,
    unchanged. *)
Lemma added_lookup_old metadata chunks ids st id :
  id ∈ (collection st).*1 →
  lookup_id (collection (added metadata chunks ids st)) id
  = lookup_id (collection st) id.
Proof. intros Hid. unfold added. cbn [collection]. by apply add_records_lookup_old. Qed.

Lemma added_lookup_new metadata chunks ids st i id chunk :
  length ids = length chunks → NoDup ids →
  ids !! i = Some id → chunks !! i = Some chunk → id ∉ (collection st).*1 →
  lookup_id (collection (added metadata chunks ids st)) id
  = Some (fragment metadata (len chunks) i chunk).
Proof.
  intros Hlen Hnd Hid Hchunk Hnew. unfold added. cbn [collection].
  apply (add_records_lookup_new _ _ i); [by rewrite added_batch_ids | | done].
  apply zip_lookup_Some; [done|]. by apply (fragments_lookup _ _ 0).
Qed.

Lemma get_url_unknown (metadata : Metadata) :
  metadata !! py "url" = None → get_url metadata = VStr (py "unknown").
Proof. unfold get_url. by intros ->. Qed.

End IngestionFacts.

(** C5.  Empty or whitespace-only content: [add_document] returns 0 and
    leaves the whole state as it was: the collection, hence its count
    and every stored fragment, and the record of calls, so neither the
    embedding model nor the collection is invoked. *)
Theorem add_document_blank_is_noop `{Embedder} (content : str) (metadata : Metadata)
    (st : VectorStore) :
  Forall (λ c, isspace c = true) content →
  add_document content metadata st = (Ok 0, st).
Proof.
  intros Hblank. rewrite add_document_unfold. cbv zeta.
  by rewrite (split_text_blank content Hblank).
Qed.

Lemma add_document_blank_is_noop_witness :
  Forall (λ c, isspace c = true) [32; 10; 9; 32]%N
  ∧ add_document (H := length_embedder) [32; 10; 9; 32]%N
      {[ py "url" := VStr (py "u") ]} {| collection := []; calls := [] |}
    = (Ok 0, {| collection := []; calls := [] |}).
Proof.
  assert (Hb : Forall (λ c, isspace c = true) [32; 10; 9; 32]%N) by (repeat constructor).
  split; [exact Hb|].
  exact (add_document_blank_is_noop (H := length_embedder) _ _ _ Hb).
Defined.

(** C4, as stated, fails: the page [u] is ingested into a collection
    that holds a fragment of an earlier version of it under the same id.
    [add_document] returns 1, but the entry under the id of chunk 0
    still carries the metadata of the earlier version. *)
Lemma ingest_keeps_stored_metadata :
  ¬ ingest_stores_metadata (H := length_embedder) (py "hello") fresh_metadata stale_store.
Proof.
  intros Hclaim.
  pose (st1 := (add_document (H := length_embedder) (py "hello") fresh_metadata
                  stale_store).2).
  assert (H1 : add_document (H := length_embedder) (py "hello") fresh_metadata stale_store
               = (Ok 1, st1)) by (vm_compute; reflexivity).
  destruct (Hclaim 1 st1) as [_ Hstored]; [vm_compute; discriminate | exact H1 |].
  destruct (Hstored 0%nat (py "hello") (py "830f23231cc74b9edc9c3f59302b5ed0"))
    as (e & He & Hmeta).
  - vm_compute. reflexivity.
  - vm_compute. reflexivity.
  - vm_compute in He. injection He as <-.
    apply (f_equal (λ m : option Metadata, m !! py "title")) in Hmeta.
    vm_compute in Hmeta. discriminate Hmeta.
Qed.

(** C4, amended.  When the chunker yields chunks and [add_document]
    returns, it returns their number; it makes one call to the model and
    one to the collection, handing over one id per chunk; after it the
    collection has an entry under the id of every chunk.  For a chunk at
    position [i] whose id was new to the collection this entry is the
    fragment of this document: the chunk, its vector and the document's
    metadata extended with [chunk_index = i] and
    [total_chunks = len(chunks)].  For a chunk whose id was in the
    collection already nothing is stored: the entry under that id is the
    one that was there. *)
Theorem add_document_count_and_metadata `{Embedder} (content : str)
    (metadata : Metadata) (st st' : VectorStore) (n : Z) :
  let chunks := split_text text_splitter content in
  chunks ≠ [] →
  add_document content metadata st = (Ok n, st') →
  n = len chunks
  ∧ ∃ ids,
      chunk_ids (get_url metadata) 0 chunks = Ok ids
      ∧ length ids = length chunks
      ∧ calls st' = calls st ++ [CallEncode chunks; CallAdd ids]
      ∧ ∀ i chunk id,
          chunks !! i = Some chunk → ids !! i = Some id →
          id ∈ (collection st').*1
          ∧ (id ∉ (collection st).*1 →
             lookup_id (collection st') id
             = Some {| e_embedding := model_encode chunk;
                       e_metadata :=
                         Some (<[py "total_chunks" := VInt (len chunks)]>
                                 (<[py "chunk_index" := VInt (Z.of_nat i)]> metadata));
                       e_document := chunk |})
          ∧ (id ∈ (collection st).*1 →
             lookup_id (collection st') id = lookup_id (collection st) id).
Proof.
  intros chunks Hne Hadd.
  apply add_document_Ok in Hadd as [(Hnil & _) | (_ & ids & Hids & Hnd & -> & ->)];
    [done|].
  fold chunks in Hids. pose proof (chunk_ids_length _ _ _ _ Hids) as Hlen.
  split; [done|]. exists ids. repeat split; try done.
  - apply added_has_ids; [done|]. by eapply list_elem_of_lookup_2.
  - intros Hnew. by apply added_lookup_new.
  - intros Hold. by apply added_lookup_old.
Qed.

Lemma add_document_count_and_metadata_witness :
  split_text text_splitter (py "The quick brown fox. ") ≠ []
  ∧ add_document (H := length_embedder) (py "The quick brown fox. ")
      {[ py "url" := VStr (py "u1") ]} {| collection := []; calls := [] |}
    = (Ok 1, added (H := length_embedder) {[ py "url" := VStr (py "u1") ]}
               [py "The quick brown fox."] [py "88c3f1185580395c1cb7172da85a623e"]
               {| collection := []; calls := [] |})
  ∧ 1 = len (split_text text_splitter (py "The quick brown fox. ")).
Proof.
  assert (Hne : split_text text_splitter (py "The quick brown fox. ") ≠ [])
    by (vm_compute; discriminate).
  assert (Hadd : add_document (H := length_embedder) (py "The quick brown fox. ")
      {[ py "url" := VStr (py "u1") ]} {| collection := []; calls := [] |}
    = (Ok 1, added (H := length_embedder) {[ py "url" := VStr (py "u1") ]}
               [py "The quick brown fox."] [py "88c3f1185580395c1cb7172da85a623e"]
               {| collection := []; calls := [] |}))
    by (vm_compute; reflexivity).
  split; [exact Hne|]. split; [exact Hadd|].
  exact (proj1 (add_document_count_and_metadata (H := length_embedder) _ _ _ _ _ Hne Hadd)).
Defined.

(** C1, as stated, fails: re-ingesting a page whose fragment id is taken
    keeps the count, but the entry under that id is not overwritten; it
    still carries the old title after both calls. *)
Lemma reingest_does_not_overwrite :
  ¬ reingest_overwrites (H := length_embedder) (py "hello") fresh_metadata stale_store.
Proof.
  intros Hclaim.
  pose (st1 := (add_document (H := length_embedder) (py "hello") fresh_metadata
                  stale_store).2).
  pose (st2 := (add_document (H := length_embedder) (py "hello") fresh_metadata st1).2).
  assert (H1 : add_document (H := length_embedder) (py "hello") fresh_metadata stale_store
               = (Ok 1, st1)) by (vm_compute; reflexivity).
  assert (H2 : add_document (H := length_embedder) (py "hello") fresh_metadata st1
               = (Ok 1, st2)) by (vm_compute; reflexivity).
  destruct (Hclaim _ _ _ _ H1 H2) as [_ Hover].
  specialize (Hover 0%nat (py "hello") (py "830f23231cc74b9edc9c3f59302b5ed0")).
  apply (f_equal (λ o : option Entry, e ← o; e_metadata e !! py "title")) in Hover.
  - vm_compute in Hover. discriminate Hover.
  - vm_compute. reflexivity.
  - vm_compute. reflexivity.
Qed.

(** What the collection holds after the two calls: the old title. *)
Example reingest_keeps_old_title :
  let st1 := (add_document (H := length_embedder) (py "hello") fresh_metadata
                stale_store).2 in
  let st2 := (add_document (H := length_embedder) (py "hello") fresh_metadata st1).2 in
  count st2 = 1
  ∧ (e ← lookup_id (collection st2) (py "830f23231cc74b9edc9c3f59302b5ed0");
     e_metadata e !! py "title") = Some (VStr (py "old")).
Proof. vm_compute. split; reflexivity. Qed.

(** C1, amended.  When [add_document] has returned for
    [(content, metadata)], a second call with the same arguments returns
    the same number and leaves the collection exactly as the first call
    left it, so [count()] is unchanged: every id the second call derives
    is already in the collection, and [collection.add] skips a record
    whose id exists; it inserts no duplicate and overwrites nothing. *)
Theorem add_document_twice `{Embedder} (content : str) (metadata : Metadata)
    (st st1 : VectorStore) (n : Z) :
  add_document content metadata st = (Ok n, st1) →
  ∃ st2,
    add_document content metadata st1 = (Ok n, st2)
    ∧ collection st2 = collection st1
    ∧ count st2 = count st1
    ∧ ∀ i chunk id,
        split_text text_splitter content !! i = Some chunk →
        chunk_id (get_url metadata) i chunk = Ok id →
        id ∈ (collection st1).*1.
Proof.
  intros Hadd.
  apply add_document_Ok in Hadd as [(Hnil & -> & ->) | (Hne & ids & Hids & Hnd & -> & ->)].
  - exists st. rewrite add_document_unfold. cbv zeta. rewrite Hnil.
    repeat split; try done; intros i chunk id Hi; by rewrite lookup_nil in Hi.
  - pose proof (chunk_ids_length _ _ _ _ Hids) as Hlen.
    set (chunks := split_text text_splitter content) in *.
    set (st1 := added metadata chunks ids st).
    assert (Hcoll : fold_left add_record
                      (zip ids (fragments metadata (len chunks) 0 chunks))
                      (collection st1) = collection st1).
    { apply add_records_all_old. apply Forall_forall. intros r Hr.
      apply added_has_ids; [done|]. rewrite <- (added_batch_ids metadata chunks ids Hlen).
      by apply list_elem_of_fmap_2. }
    exists (added metadata chunks ids st1).
    rewrite add_document_unfold. cbv zeta. fold chunks.
    destruct chunks as [|c0 chunks0] eqn:Hchunks; [done|]. cbn [nonempty negb].
    rewrite Hids, bool_decide_eq_true_2 by done.
    assert (Hsame : collection (added metadata (c0 :: chunks0) ids st1) = collection st1)
      by exact Hcoll.
    repeat split; try done.
    + unfold count. by rewrite Hsame.
    + intros i chunk id Hi Hid.
      destruct (chunk_ids_lookup _ _ _ _ _ _ Hids Hi) as (id' & Hid' & Hcid).
      simpl in Hcid. rewrite Hid in Hcid. injection Hcid as <-.
      apply added_has_ids; [done|]. by eapply list_elem_of_lookup_2.
Qed.

Lemma add_document_twice_witness :
  ∃ st1,
    add_document (H := length_embedder) (py "hello") fresh_metadata
      {| collection := []; calls := [] |} = (Ok 1, st1)
    ∧ ∃ st2,
        add_document (H := length_embedder) (py "hello") fresh_metadata st1 = (Ok 1, st2)
        ∧ count st2 = count st1.
Proof.
  eexists. split; [vm_compute; reflexivity|].
  match goal with
  | |- ∃ st2, add_document _ _ ?st1 = _ ∧ _ =>
      destruct (add_document_twice (H := length_embedder) (py "hello") fresh_metadata
                  {| collection := []; calls := [] |} st1 1 eq_refl)
        as (st2 & H2 & _ & Hcount & _)
  end.
  exists st2. split; [exact H2 | exact Hcount].
Defined.

(** C10, as stated, fails: two files without [url] and with the same
    text get the same fragment id, but the second does not take the place
    of the first. *)
Lemma urlless_second_does_not_overwrite :
  ¬ urlless_overwrite (H := length_embedder) (py "hello") file_a_metadata
      (py "hello") file_b_metadata empty_store.
Proof.
  intros Hclaim.
  pose (st1 := (add_document (H := length_embedder) (py "hello") file_a_metadata
                  empty_store).2).
  pose (st2 := (add_document (H := length_embedder) (py "hello") file_b_metadata st1).2).
  destruct (Hclaim eq_refl eq_refl 0%nat (py "hello") (py "hello") 1 st1 1 st2)
    as (id & Hid & _ & _ & Hlook); try (vm_compute; reflexivity).
  vm_compute in Hid. injection Hid as <-.
  apply (f_equal (λ o : option Entry, e ← o; e_metadata e !! py "source")) in Hlook.
  vm_compute in Hlook. discriminate Hlook.
Qed.

(** After both files are ingested, the entry under the shared id is the
    one of [a.txt]; [b.txt] has no fragment, though [add_document]
    returned 1 for it. *)
Example urlless_first_is_kept :
  let st1 := (add_document (H := length_embedder) (py "hello") file_a_metadata
                empty_store).2 in
  let r2 := add_document (H := length_embedder) (py "hello") file_b_metadata st1 in
  r2.1 = Ok 1
  ∧ count r2.2 = 1
  ∧ (e ← lookup_id (collection r2.2) (py "eb35c41484599737f68232f8a516d276");
     e_metadata e !! py "source") = Some (VStr (py "a.txt")).
Proof. vm_compute. repeat split; reflexivity. Qed.

(** C10, amended.  Without a [url] key the ids are derived from the
    literal [unknown], so chunks of two such documents that share their
    position and their first 100 characters get the same id; when both
    documents are ingested, the entry under that id is the one that was
    there after the first ingestion (the first document's fragment, if
    the id was new then): the second document's fragment is skipped, not
    written over it. *)
Theorem urlless_ids_collide_first_kept `{Embedder} (content1 : str) (m1 : Metadata)
    (content2 : str) (m2 : Metadata) (st st1 st2 : VectorStore) (n1 n2 : Z)
    (i : nat) (c1 c2 : str) :
  m1 !! py "url" = None → m2 !! py "url" = None →
  split_text text_splitter content1 !! i = Some c1 →
  split_text text_splitter content2 !! i = Some c2 →
  take 100 c1 = take 100 c2 →
  add_document content1 m1 st = (Ok n1, st1) →
  add_document content2 m2 st1 = (Ok n2, st2) →
  ∃ id,
    chunk_id (VStr (py "unknown")) i c1 = Ok id
    ∧ chunk_id (get_url m1) i c1 = Ok id
    ∧ chunk_id (get_url m2) i c2 = Ok id
    ∧ lookup_id (collection st2) id = lookup_id (collection st1) id
    ∧ is_Some (lookup_id (collection st1) id)
    ∧ (id ∉ (collection st).*1 →
       lookup_id (collection st2) id
       = Some (fragment m1 (len (split_text text_splitter content1)) i c1)).
Proof.
  intros Hm1 Hm2 Hc1 Hc2 Hpre Hadd1 Hadd2.
  rewrite (get_url_unknown m1 Hm1), (get_url_unknown m2 Hm2).
  apply add_document_Ok in Hadd1 as [(Hnil & _) | (_ & ids1 & Hids1 & Hnd1 & _ & ->)].
  { by rewrite Hnil in Hc1. }
  apply add_document_Ok in Hadd2 as [(Hnil & _) | (_ & ids2 & Hids2 & Hnd2 & _ & ->)].
  { by rewrite Hnil in Hc2. }
  rewrite (get_url_unknown m1 Hm1) in Hids1.
  pose proof (chunk_ids_length _ _ _ _ Hids1) as Hlen1.
  destruct (chunk_ids_lookup _ _ _ _ _ _ Hids1 Hc1) as (id & Hid & Hcid).
  simpl in Hcid. exists id.
  assert (Hin : id ∈ (collection (added m1 (split_text text_splitter content1) ids1 st)).*1).
  { apply added_has_ids; [done|]. by eapply list_elem_of_lookup_2. }
  assert (Hkeep : lookup_id (collection (added m2 (split_text text_splitter content2) ids2
                               (added m1 (split_text text_splitter content1) ids1 st))) id
                  = lookup_id (collection (added m1 (split_text text_splitter content1)
                                             ids1 st)) id)
    by by apply added_lookup_old.
  split; [done|]. split; [done|].
  split. { rewrite <- Hcid. unfold chunk_id. symmetry. by apply generate_id_prefix. }
  split; [done|]. split; [by apply lookup_id_is_Some|].
  intros Hnew. rewrite Hkeep. by apply added_lookup_new.
Qed.

Lemma urlless_ids_collide_first_kept_witness :
  ∃ st1 st2,
    add_document (H := length_embedder) (py "hello") file_a_metadata empty_store
    = (Ok 1, st1)
    ∧ add_document (H := length_embedder) (py "hello") file_b_metadata st1 = (Ok 1, st2)
    ∧ lookup_id (collection st2) (py "eb35c41484599737f68232f8a516d276")
      = lookup_id (collection st1) (py "eb35c41484599737f68232f8a516d276").
Proof.
  eexists. eexists. split; [vm_compute; reflexivity|].
  split; [vm_compute; reflexivity|].
  match goal with
  | |- lookup_id (collection ?st2) _ = lookup_id (collection ?st1) _ =>
      destruct (urlless_ids_collide_first_kept (H := length_embedder)
                  (py "hello") file_a_metadata (py "hello") file_b_metadata
                  empty_store st1 st2 1 1 0 (py "hello") (py "hello")
                  eq_refl eq_refl eq_refl eq_refl eq_refl eq_refl eq_refl)
        as (id & Hid & _ & _ & Hkeep & _)
  end.
  vm_compute in Hid. injection Hid as <-. exact Hkeep.
Defined.

(** ** Deletion by source *)

Section DeletionFacts.
Context `{Embedder}.

Lemma filter_ext_elem {A} (P Q : A → Prop) `{!∀ x, Decision (P x)}
    `{!∀ x, Decision (Q x)} (l : list A) :
  (∀ x, x ∈ l → (P x ↔ Q x)) → filter P l = filter Q l.
Proof.
  induction l as [|x l IH]; intros HPQ; [done|].
  rewrite !filter_cons.
  rewrite IH by (intros y Hy; apply HPQ; by right).
  destruct (decide (P x)) as [HP|HP], (decide (Q x)) as [HQ|HQ]; try done;
    exfalso; apply (HPQ x) in HP || apply (HPQ x) in HQ; by (done || left).
Qed.

Lemma filter_all {A} (P : A → Prop) `{!∀ x, Decision (P x)} (l : list A) :
  (∀ x, x ∈ l → P x) → filter P l = l.
Proof.
  induction l as [|x l IH]; intros HP; [done|].
  rewrite filter_cons_True by (apply HP; by left).
  f_equal. apply IH. intros y Hy. apply HP. by right.
Qed.

Lemma filter_complement_length {A} (P : A → Prop) `{!∀ x, Decision (P x)} (l : list A) :
  (length (filter P l) + length (filter (λ x, ¬ P x) l) = length l)%nat.
Proof.
  induction l as [|x l IH]; [done|].
  rewrite !filter_cons. destruct (decide (P x)), (decide (¬ P x)); simpl; try lia; done.
Qed.

Lemma unique_ids_inj (c : Collection) r r' :
  unique_ids c → r ∈ c → r' ∈ c → r.1 = r'.1 → r = r'.
Proof.
  unfold unique_ids. induction c as [|x c IH]; intros Hnd Hr Hr' Heq.
  - by apply elem_of_nil in Hr.
  - simpl in Hnd. apply NoDup_cons in Hnd as [Hx Hnd].
    apply elem_of_cons in Hr as [->|Hr]; apply elem_of_cons in Hr' as [->|Hr'].
    + done.
    + exfalso. apply Hx. rewrite Heq. by apply list_elem_of_fmap_2.
    + exfalso. apply Hx. rewrite <- Heq. by apply list_elem_of_fmap_2.
    + by apply IH.
Qed.

(** With distinct ids, an entry's id is among the fetched ids exactly
    when the entry itself matches the filter. *)
Lemma ids_where_elem (w : Where) (c : Collection) r :
  unique_ids c → r ∈ c →
  (r.1 ∈ ids_where w c ↔ matches (Some w) r = true).
Proof.
  intros Hu Hr. unfold ids_where. split.
  - intros Hin. apply list_elem_of_fmap in Hin as (r' & Heq & Hr').
    apply list_elem_of_filter in Hr' as [Hm Hr'].
    by rewrite (unique_ids_inj c r r' Hu Hr Hr' Heq).
  - intros Hm. apply list_elem_of_fmap_2. by apply list_elem_of_filter.
Qed.

Lemma delete_length (w : Where) (c : Collection) :
  unique_ids c →
  len (filter (λ r, r.1 ∉ ids_where w c) c) = len c - len (ids_where w c).
Proof.
  intros Hu.
  rewrite (filter_ext_elem _ (λ r, ¬ (matches (Some w) r = true)) c); cycle 1.
  { intros r Hr. by rewrite (ids_where_elem w c r Hu Hr). }
  pose proof (filter_complement_length (λ r, matches (Some w) r = true) c) as Hlen.
  unfold ids_where, len. rewrite length_fmap.
  cbv beta in Hlen. unfold Collection in *. lia.
Qed.

Lemma nonempty_false {A} (l : list A) : nonempty l = false ↔ l = [].
Proof. by destruct l. Qed.

(** [delete_by_url], case by case. *)
Lemma delete_by_url_unfold url st :
  delete_by_url url st
  = let c := collection st in
    let by_url := ids_where (py "url", VStr url) c in
    let by_source := ids_where (py "source", VStr url) c in
    if nonempty by_url then
      (Ok (len by_url),
       {| collection := filter (λ r, r.1 ∉ by_url) c;
          calls := calls st ++ [CallGet (py "url", VStr url); CallDelete by_url] |})
    else if nonempty by_source then
      (Ok (len by_source),
       {| collection := filter (λ r, r.1 ∉ by_source) c;
          calls := calls st ++ [CallGet (py "url", VStr url);
                                CallGet (py "source", VStr url);
                                CallDelete by_source] |})
    else
      (Ok 0,
       {| collection := c;
          calls := calls st ++ [CallGet (py "url", VStr url);
                                CallGet (py "source", VStr url)] |}).
Proof.
  unfold delete_by_url, collection_get, collection_delete, mbind, M_mbind, bind,
    log, ret, get_collection, put_collection. cbn [collection calls]. cbv zeta.
  destruct (nonempty (ids_where (py "url", VStr url) (collection st))) eqn:Hurl;
    cbn [negb collection calls].
  - rewrite Hurl. cbn [collection calls]. by rewrite <- app_assoc.
  - destruct (nonempty (ids_where (py "source", VStr url) (collection st)));
      cbn [collection calls]; by rewrite <- !app_assoc.
Qed.

Lemma delete_by_url_unique url st :
  unique_ids (collection st) →
  unique_ids (collection (delete_by_url url st).2).
Proof.
  intros Hu. rewrite delete_by_url_unfold. cbv zeta.
  repeat (destruct (nonempty _)); cbn [snd collection];
    done || by apply delete_filter_unique.
Qed.
End DeletionFacts.

(** C6.  [delete_by_url(s)] fetches the ids of the entries whose [url] is
    [s] and, only when there is none, those whose [source] is [s]; it
    deletes the entries with the fetched ids, which are exactly the
    entries that match, and returns their number.  It always returns:
    when neither field matches (an unknown source, an empty collection)
    the result is 0 and the collection is unchanged. *)
Theorem delete_by_url_spec `{Embedder} (url : str) (st : VectorStore) :
  unique_ids (collection st) →
  let by_url := ids_where (py "url", VStr url) (collection st) in
  let by_source := ids_where (py "source", VStr url) (collection st) in
  let matched := if nonempty by_url then by_url else by_source in
  let field := if nonempty by_url then py "url" else py "source" in
  ∃ st',
    delete_by_url url st = (Ok (len matched), st')
    ∧ collection st' = filter (λ r, r.1 ∉ matched) (collection st)
    ∧ (∀ r, r ∈ collection st →
         (r.1 ∈ matched ↔ e_metadata r.2 !! field = Some (VStr url)))
    ∧ count st' = count st - len matched
    ∧ calls st'
      = calls st ++ CallGet (py "url", VStr url)
          :: (if nonempty by_url then [] else [CallGet (py "source", VStr url)])
          ++ (if nonempty matched then [CallDelete matched] else [])
    ∧ (by_url = [] → by_source = [] → len matched = 0 ∧ collection st' = collection st).
Proof.
  intros Hu by_url by_source matched field.
  rewrite delete_by_url_unfold. cbv zeta. fold by_url by_source.
  assert (Hmatch : ∀ r, r ∈ collection st →
            (r.1 ∈ matched ↔ e_metadata r.2 !! field = Some (VStr url))).
  { intros r Hr. unfold matched, field. destruct (nonempty by_url).
    - unfold by_url. rewrite (ids_where_elem _ _ r Hu Hr). simpl.
      apply bool_decide_eq_true.
    - unfold by_source. rewrite (ids_where_elem _ _ r Hu Hr). simpl.
      apply bool_decide_eq_true. }
  assert (Hcount : len (filter (λ r, r.1 ∉ matched) (collection st))
                   = len (collection st) - len matched).
  { unfold matched. destruct (nonempty by_url); by apply delete_length. }
  unfold matched in *. clear matched.
  destruct (nonempty by_url) eqn:Hurl.
  - eexists. split; [reflexivity|]. cbn [collection calls].
    split; [done|]. split; [exact Hmatch|]. split; [exact Hcount|].
    split; [by rewrite Hurl|].
    intros Hnil. rewrite Hnil in Hurl. discriminate Hurl.
  - destruct (nonempty by_source) eqn:Hsrc.
    + eexists. split; [reflexivity|]. cbn [collection calls].
      split; [done|]. split; [exact Hmatch|]. split; [exact Hcount|].
      split; [done|].
      intros _ Hnil. rewrite Hnil in Hsrc. discriminate Hsrc.
    + apply nonempty_false in Hsrc as Hnil.
      assert (Hsame : filter (λ r, r.1 ∉ by_source) (collection st) = collection st).
      { rewrite Hnil. apply filter_all. intros r _. apply not_elem_of_nil. }
      rewrite Hsame in Hcount.
      eexists. split; [by rewrite Hnil|]. cbn [collection calls].
      split; [done|]. split; [exact Hmatch|]. split; [exact Hcount|].
      split; [done|].
      intros _ _. by rewrite Hnil.
Qed.

Lemma delete_by_url_spec_witness :
  unique_ids (collection stale_store)
  ∧ (delete_by_url (H := length_embedder) (py "u") stale_store).1 = Ok 1
  ∧ count (delete_by_url (H := length_embedder) (py "u") stale_store).2 = 0
  ∧ (delete_by_url (H := length_embedder) (py "a.txt") stale_store).1 = Ok 0.
Proof.
  assert (Hu : unique_ids (collection stale_store)).
  { vm_compute. apply NoDup_singleton. }
  split; [exact Hu|].
  destruct (delete_by_url_spec (H := length_embedder) (py "u") stale_store Hu)
    as (st' & Hdel & _ & _ & Hcount & _).
  destruct (delete_by_url_spec (H := length_embedder) (py "a.txt") stale_store Hu)
    as (st'' & Hdel' & _).
  rewrite Hdel, Hdel'. cbn [fst snd]. rewrite Hcount.
  vm_compute. repeat split; reflexivity.
Defined.

(** ** Retrieval *)

Section RetrievalFacts.
Context `{Embedder}.

Local Abbreviation dist := entry_distance.

Lemma nearer_true q a b : nearer q a b = true → Qle (dist q a) (dist q b).
Proof. unfold nearer. apply Qle_bool_imp_le. Qed.

Lemma nearer_false q a b : nearer q a b = false → Qle (dist q b) (dist q a).
Proof.
  unfold nearer. intros Hf. apply Qlt_le_weak, Qnot_le_lt.
  intros Hle. apply Qle_bool_iff in Hle. fold (entry_distance q a) (entry_distance q b) in Hf. congruence.
Qed.

Lemma insert_by_hd q r x l :
  Qle (dist q x) (dist q r) →
  HdRel (λ a b, Qle (dist q a) (dist q b)) x l →
  HdRel (λ a b, Qle (dist q a) (dist q b)) x (insert_by q r l).
Proof.
  intros Hxr Hhd. destruct l as [|y l]; simpl.
  - by constructor.
  - inversion Hhd; subst. destruct (nearer q r y); by constructor.
Qed.

Lemma insert_by_sorted q r l :
  Sorted (λ a b, Qle (dist q a) (dist q b)) l →
  Sorted (λ a b, Qle (dist q a) (dist q b)) (insert_by q r l).
Proof.
  induction 1 as [|x l Hs IH Hhd]; simpl.
  - by repeat constructor.
  - destruct (nearer q r x) eqn:Hn.
    + constructor; [by constructor|]. constructor. by apply nearer_true.
    + constructor; [done|]. apply insert_by_hd; [by apply nearer_false | done].
Qed.

(** Ranking sorts by ascending distance. *)
Lemma rank_sorted q l : Sorted (λ a b, Qle (dist q a) (dist q b)) (rank q l).
Proof.
  unfold rank. induction l as [|r l IH]; simpl; [constructor|].
  by apply insert_by_sorted.
Qed.

Lemma Sorted_take {A} (R : A → A → Prop) n l : Sorted R l → Sorted R (take n l).
Proof.
  intros Hs. revert n. induction Hs as [|x l Hs IH Hhd]; intros [|n]; simpl;
    try constructor; [apply IH|].
  destruct Hhd as [|y l' Hxy]; destruct n; simpl; by constructor.
Qed.

Lemma Sorted_fmap {A B} (f : A → B) (R : B → B → Prop) l :
  Sorted (λ a b, R (f a) (f b)) l → Sorted R (f <$> l).
Proof.
  induction 1 as [|x l Hs IH Hhd]; simpl; constructor; [done|].
  destruct Hhd; simpl; by constructor.
Qed.

Lemma nearest_sorted q n w c :
  Sorted Qle (dist q <$> nearest q n w c).
Proof. apply Sorted_fmap. unfold nearest. apply Sorted_take, rank_sorted. Qed.

Lemma nearest_length q n w c : 0 ≤ n → len (nearest q n w c) ≤ n.
Proof. intros Hn. unfold nearest, len. rewrite length_take. lia. Qed.

Lemma nearest_no_match q n w c :
  Forall (λ r, matches w r = false) c → nearest q n w c = [].
Proof.
  intros Hc. unfold nearest.
  assert (Hnone : filter (λ r, matches w r = true) c = []).
  { induction Hc as [|r c Hr _ IH]; [done|].
    rewrite filter_cons_False by congruence. done. }
  unfold Collection in *. rewrite Hnone. cbn. apply take_nil.
Qed.

Lemma format_hit_result q pre r suf :
  format_hit (result_of q (pre ++ r :: suf)) (length pre) (e_document r.2)
  = Ok (hit_of q r).
Proof.
  unfold format_hit, result_of, py_index. cbn.
  rewrite !list_lookup_fmap, !list_lookup_middle by done. done.
Qed.

Lemma format_loop_result q pre suf acc :
  format_loop (result_of q (pre ++ suf)) (length pre)
    ((λ r, e_document r.2) <$> suf) acc
  = Ok (acc ++ (hit_of q <$> suf)).
Proof.
  revert pre acc. induction suf as [|r suf IH]; intros pre acc; simpl.
  - by rewrite app_nil_r.
  - rewrite format_hit_result. cbn.
    replace (pre ++ r :: suf) with ((pre ++ [r]) ++ suf) by by rewrite <- app_assoc.
    replace (S (length pre)) with (length (pre ++ [r])) by (rewrite length_app; simpl; lia).
    rewrite IH. by rewrite <- app_assoc.
Qed.

(** Formatting keeps the entries in the order of the ranking. *)
Lemma format_results_result q hits :
  format_results (result_of q hits) = Ok (hit_of q <$> hits).
Proof.
  unfold format_results. cbn [result_of q_documents].
  destruct hits as [|r hits]; [done|]. cbn [fmap list_fmap nonempty].
  apply (format_loop_result q [] (r :: hits) []).
Qed.

(** [search], case by case. *)
Lemma search_unfold query n w st :
  search query n w st
  = let q := model_encode query in
    let st' := {| collection := collection st;
                  calls := calls st ++ [CallEncode [query]; CallQuery n w] |} in
    if n <=? 0 then (Raise TypeError, st')
    else (Ok (hit_of q <$> nearest q n w (collection st)), st').
Proof.
  unfold search, _get_embeddings, collection_query, mbind, M_mbind, bind, log, ret,
    lift, get_collection. cbn [collection calls fmap list_fmap py_index lookup
    list_lookup]. cbv zeta.
  rewrite <- app_assoc. cbn [app].
  destruct (n <=? 0); [done|]. cbn [collection calls].
  fold (result_of (model_encode query) (nearest (model_encode query) n w (collection st))).
  by rewrite format_results_result.
Qed.

Lemma distance_hit_of q (hits : list (str * Entry)) :
  distance <$> (hit_of q <$> hits) = Some <$> (dist q <$> hits).
Proof. rewrite <- !list_fmap_compose. done. Qed.

Lemma insert_by_perm q r (l : list (str * Entry)) : insert_by q r l ≡ₚ r :: l.
Proof.
  induction l as [|x l IH]; simpl; [done|].
  destruct (nearer q r x); [done|]. rewrite IH. apply Permutation_swap.
Qed.

(** Entries at the same distance keep their insertion order. *)
Lemma rank_ties q (l : list (str * Entry)) :
  (∀ a b, a ∈ l → b ∈ l → nearer q a b = true) → rank q l = l.
Proof.
  unfold rank. induction l as [|r l IH]; intros Hties; simpl; [done|].
  rewrite IH by (intros a b Ha Hb; apply Hties; by right).
  destruct l as [|x l]; simpl; [done|].
  rewrite (Hties r x); [done | left | right; left].
Qed.

(** Ranking reorders the entries; none is lost and none is invented. *)
Lemma rank_perm q (l : list (str * Entry)) : rank q l ≡ₚ l.
Proof.
  unfold rank. induction l as [|r l IH]; simpl; [done|].
  by rewrite insert_by_perm, IH.
Qed.

Lemma nearest_elem q n w (c : Collection) r :
  r ∈ nearest q n w c → r ∈ c ∧ matches w r = true.
Proof.
  unfold nearest. intros Hr. apply subseteq_take in Hr.
  rewrite rank_perm in Hr. apply list_elem_of_filter in Hr. tauto.
Qed.

Lemma nearest_exact_length q n w (c : Collection) :
  0 ≤ n →
  len (nearest q n w c) = Z.min n (len (filter (λ r, matches w r = true) c)).
Proof.
  intros Hn. unfold nearest, len. rewrite length_take, (Permutation_length (rank_perm _ _)).
  lia.
Qed.


End RetrievalFacts.


(** What [search] returns on the collection with the entry without
    metadata. *)
Example search_bare_store :
  (search (H := length_embedder) (py "fox") 5 None bare_store).1
  = Ok [{| content := py "hello"; metadata := None; distance := Some (2 # 1)%Q |}].
Proof. vm_compute. reflexivity. Qed.



(** C8.  [search] returns whenever the number of requested results is
    positive; what it returns has at most that many elements, is the
    ranking of the collection in the collection's order, and its
    [distance] values are non-decreasing. *)
Theorem search_at_most_topk_ascending `{Embedder} (query : str) (n : Z)
    (w : option Where) (st : VectorStore) :
  (0 < n → ∃ hits st', search query n w st = (Ok hits, st'))
  ∧ ∀ hits st',
      search query n w st = (Ok hits, st') →
      len hits ≤ n
      ∧ hits = hit_of (model_encode query)
                 <$> nearest (model_encode query) n w (collection st)
      ∧ ∃ ds, distance <$> hits = Some <$> ds ∧ Sorted Qle ds.
Proof.
  rewrite search_unfold. cbv zeta. split.
  - intros Hn. destruct (n <=? 0) eqn:Hle; [bool_to_prop; lia|]. by eexists _, _.
  - intros hits st'. destruct (n <=? 0) eqn:Hle; [done|]. intros [= <- <-].
    bool_to_prop. split; [|split; [done|]].
    + unfold len. rewrite length_fmap. apply nearest_length. lia.
    + eexists. split; [apply distance_hit_of | apply nearest_sorted].
Qed.

Lemma search_at_most_topk_ascending_witness :
  ∃ hits st',
    search (H := length_embedder) (py "fox") 1 None stale_store = (Ok hits, st')
    ∧ len hits ≤ 1.
Proof.
  destruct (search_at_most_topk_ascending (H := length_embedder) (py "fox") 1 None
              stale_store) as [Hret Hsorted].
  destruct Hret as (hits & st' & Hs); [lia|].
  exists hits, st'. split; [exact Hs|]. by destruct (Hsorted hits st' Hs).
Defined.

(** ** The scraper and the [/process] route *)

Section ScraperFacts.
Context `{Web}.

(** A missing [url] argument, a scheme other than [http] and [https], a
    failed request and an empty page all make [scrape] return [None]. *)
Lemma scrape_failure (source_url : option str) :
  (source_url = None
   ∨ ∃ u, source_url = Some u
          ∧ (urlparse_scheme u = None
             ∨ (∃ s, urlparse_scheme u = Some s ∧ s ∉ [py "http"; py "https"])
             ∨ requests_get u = None
             ∨ requests_get u = Some [])) →
  scrape source_url = None.
Proof.
  unfold scrape, fetch_url.
  intros [-> | (u & -> & [Hs | [(s & Hs & Hbad) | [Hr | Hr]]])]; [done|..].
  - by rewrite Hs.
  - rewrite Hs. by rewrite bool_decide_eq_false_2.
  - destruct (urlparse_scheme u); [|done]. destruct (negb _); [done|]. by rewrite Hr.
  - destruct (urlparse_scheme u); [|done]. destruct (negb _); [done|]. by rewrite Hr.
Qed.
End ScraperFacts.

(** C2.  When [scrape] returns no content, the [/process] route writes
    nothing: it raises before [add_document] is reached, the collection
    is the one on disk (empty when there was none), and neither the
    embedding model nor the collection has been called. *)
Theorem process_failed_scrape_ingests_nothing `{Embedder} `{Web}
    (source_url : option str) (db : option Collection) :
  scrape source_url = None →
  ∃ st',
    process source_url db = (Raise TypeError, st')
    ∧ collection st' = default [] db
    ∧ count st' = len (default [] db)
    ∧ calls st' = [].
Proof.
  intros Hscrape. unfold process. rewrite Hscrape. by eexists.
Qed.

Lemma process_failed_scrape_ingests_nothing_witness :
  scrape (H := one_page_web) (Some (py "ftp://a")) = None
  ∧ ∃ st',
      process (H := length_embedder) (H0 := one_page_web) (Some (py "ftp://a"))
        (Some (collection stale_store)) = (Raise TypeError, st')
      ∧ collection st' = collection stale_store.
Proof.
  assert (Hs : scrape (H := one_page_web) (Some (py "ftp://a")) = None)
    by (vm_compute; reflexivity).
  split; [exact Hs|].
  destruct (process_failed_scrape_ingests_nothing (H := length_embedder)
              (H0 := one_page_web) (Some (py "ftp://a"))
              (Some (collection stale_store)) Hs) as (st' & Hp & Hc & _).
  exists st'. split; [exact Hp | exact Hc].
Defined.

(** The route on the page that exists: one chunk is ingested. *)
Example process_ingests_page :
  let r := process (H := length_embedder) (H0 := one_page_web) (Some (py "http://a")) None in
  r.1 = Ok (py "process completed") ∧ count r.2 = 1.
Proof. vm_compute. split; reflexivity. Qed.


(* ===================================================================== *)
(** * Part III: further properties *)
(* ===================================================================== *)

(** ** Ingestion: what is written, and what is not *)

Section WrittenFacts.
Context `{Embedder}.

(** [collection.add] appends: the collection afterwards is the collection
    before, followed by the records that were written. *)
Lemma add_records_written (batch : list (str * Entry)) (c : Collection) :
  fold_left add_record batch c = c ++ written (c.*1) batch.
Proof.
  revert c. induction batch as [|r batch IH]; intros c; simpl.
  - by rewrite app_nil_r.
  - rewrite IH. unfold add_record, has_id.
    destruct (bool_decide (r.1 ∈ c.*1)); [done|].
    rewrite fmap_app. simpl. by rewrite <- app_assoc.
Qed.

Lemma written_fresh (ids : list str) (batch : list (str * Entry)) :
  Forall (λ r, (r.1 ∉ ids) ∧ (r ∈ batch)) (written ids batch).
Proof.
  revert ids. induction batch as [|r batch IH]; intros ids; simpl; [constructor|].
  destruct (bool_decide (r.1 ∈ ids)) eqn:Hr.
  - eapply Forall_impl; [apply IH|]. intros x [? ?]. split; [done | by right].
  - apply bool_decide_eq_false in Hr. constructor; [split; [done | by left]|].
    eapply Forall_impl; [apply IH|]. intros x [Hx ?]. split; [|by right].
    intros Hin. apply Hx. apply elem_of_app. by left.
Qed.

(** When the ids of the batch are pairwise distinct, the written records
    are those whose id is new to the collection. *)
Lemma written_filter (ids : list str) (batch : list (str * Entry)) :
  NoDup batch.*1 →
  written ids batch = filter (λ r, r.1 ∉ ids) batch.
Proof.
  revert ids. induction batch as [|r batch IH]; intros ids Hnd; simpl; [done|].
  simpl in Hnd. apply NoDup_cons in Hnd as [Hr Hnd]. rewrite filter_cons.
  destruct (bool_decide (r.1 ∈ ids)) eqn:Hin.
  - apply bool_decide_eq_true in Hin. rewrite decide_False by auto. by apply IH.
  - apply bool_decide_eq_false in Hin. rewrite decide_True by done. f_equal.
    rewrite IH by done. apply filter_ext_elem. intros x Hx.
    rewrite elem_of_app, list_elem_of_singleton. split; [tauto|].
    intros Hx' [?|Heq]; [done|]. apply Hr. rewrite <- Heq.
    by apply list_elem_of_fmap_2.
Qed.

Lemma written_all (batch : list (str * Entry)) :
  NoDup batch.*1 → written [] batch = batch.
Proof.
  intros Hnd. rewrite written_filter by done.
  apply filter_all. intros r _. apply not_elem_of_nil.
Qed.

Lemma filter_zip_fst {A B} (P : A → Prop) (Q : A * B → Prop)
    `{!∀ x, Decision (P x)} `{!∀ r, Decision (Q r)} (l : list A) (k : list B) :
  (∀ r, Q r ↔ P r.1) → length l = length k →
  length (filter Q (zip l k)) = length (filter P l).
Proof.
  intros HQ. revert k.
  induction l as [|x l IH]; intros [|y k] Hlen; simpl in *; try done.
  rewrite !filter_cons.
  destruct (decide (Q (x, y))) as [Hq|Hq], (decide (P x)) as [Hp|Hp]; simpl;
    try (rewrite IH by lia; done); exfalso; apply HQ in Hq || apply Hq, HQ; done.
Qed.

(** The error of an id derivation is an encoding error. *)
Lemma chunk_id_Raise url i chunk e :
  chunk_id url i chunk = Raise e → e = UnicodeEncodeError.
Proof.
  unfold chunk_id, _generate_id, md5_hex, str_encode, mbind, res_mbind, res_bind.
  destruct (encode_chars _); [done|]. by intros [= <-].
Qed.

Lemma chunk_ids_Raise url i chunks e :
  chunk_ids url i chunks = Raise e → e = UnicodeEncodeError.
Proof.
  revert i. induction chunks as [|chunk rest IH]; intros i; simpl; [done|].
  unfold mbind, res_mbind, res_bind.
  destruct (chunk_id url i chunk) as [id|e'] eqn:Hid.
  - destruct (chunk_ids url (S i) rest) as [ids|e'] eqn:Hrest; [done|].
    intros [= <-]. by eapply IH.
  - intros [= <-]. by eapply chunk_id_Raise.
Qed.

Lemma chunk_ids_fail url i chunks k chunk e :
  chunks !! k = Some chunk → chunk_id url (i + k) chunk = Raise e →
  chunk_ids url i chunks = Raise UnicodeEncodeError.
Proof.
  intros Hk Hfail.
  destruct (chunk_ids url i chunks) as [ids|e'] eqn:Hids.
  - destruct (chunk_ids_lookup _ _ _ _ _ _ Hids Hk) as (id & _ & Hok). congruence.
  - by rewrite (chunk_ids_Raise _ _ _ _ Hids).
Qed.

Lemma encode_chars_not_scalar (s : str) c :
  c ∈ s → is_scalar c = false → encode_chars s = None.
Proof.
  intros Hc Hns. induction s as [|x s IH]; [by apply elem_of_nil in Hc|].
  simpl. apply elem_of_cons in Hc as [<-|Hc].
  - assert (utf8_char c = None) as ->; [|done].
    unfold is_scalar in Hns. unfold utf8_char.
    apply orb_false_iff in Hns as [H1 H2]. apply andb_false_iff in H2.
    apply N.ltb_ge in H1. rewrite !N.ltb_ge in H2.
    destruct (Z.ltb_spec (Z.of_N c) 0x80); [lia|].
    destruct (Z.ltb_spec (Z.of_N c) 0x800); [lia|].
    destruct (Z.ltb_spec (Z.of_N c) 0x10000).
    + destruct (Z.leb_spec 0xD800 (Z.of_N c)), (Z.leb_spec (Z.of_N c) 0xDFFF);
        simpl; try done; lia.
    + destruct (Z.ltb_spec (Z.of_N c) 0x110000); [lia | done].
  - rewrite (IH Hc). by destruct (utf8_char x).
Qed.

Lemma chunk_id_not_scalar url i chunk c :
  c ∈ py_str url ++ take 100 chunk → is_scalar c = false →
  chunk_id url i chunk = Raise UnicodeEncodeError.
Proof.
  intros Hc Hns.
  unfold chunk_id, _generate_id, md5_hex, str_encode, mbind, res_mbind, res_bind.
  rewrite (encode_chars_not_scalar _ c); [done | | done].
  rewrite !elem_of_app in *. tauto.
Qed.
End WrittenFacts.

(** X1.  Whatever its outcome, [add_document] only appends to the
    collection: the entries that were there stay where they are, with the
    same content, and every appended entry has an id that was not in the
    collection. *)
Theorem add_document_only_appends `{Embedder} (content : str) (metadata : Metadata)
    (st : VectorStore) :
  ∃ new,
    collection (add_document content metadata st).2 = collection st ++ new
    ∧ Forall (λ r, r.1 ∉ (collection st).*1) new
    ∧ ∀ id, id ∈ (collection st).*1 →
        lookup_id (collection (add_document content metadata st).2) id
        = lookup_id (collection st) id.
Proof.
  rewrite add_document_unfold. cbv zeta.
  assert (Hsame : ∃ new : Collection,
            collection st = collection st ++ new
            ∧ Forall (λ r, r.1 ∉ (collection st).*1) new
            ∧ ∀ id, id ∈ (collection st).*1 →
                lookup_id (collection st) id = lookup_id (collection st) id).
  { exists []. by rewrite app_nil_r. }
  destruct (negb _); [done|].
  destruct (chunk_ids _ _ _) as [ids|e]; [|done].
  destruct (bool_decide (NoDup ids)); [|done].
  unfold added. cbn [snd collection].
  eexists. split; [apply add_records_written|]. split.
  - eapply Forall_impl; [apply written_fresh|]. by intros r [? _].
  - intros id Hid. by apply add_records_lookup_old.
Qed.

(** X2.  After a successful [add_document] the count has grown by the
    number of chunk ids that were new to the collection, which may be less
    than the number the call returns. *)
Theorem add_document_count `{Embedder} (content : str) (metadata : Metadata)
    (st st' : VectorStore) (n : Z) :
  add_document content metadata st = (Ok n, st') →
  ∃ ids,
    chunk_ids (get_url metadata) 0 (split_text text_splitter content) = Ok ids
    ∧ count st' = count st + len (filter (λ id, id ∉ (collection st).*1) ids)
    ∧ count st ≤ count st' ≤ count st + n.
Proof.
  intros Hadd.
  apply add_document_Ok in Hadd as [(Hnil & -> & ->) | (_ & ids & Hids & Hnd & -> & ->)].
  - exists []. rewrite Hnil. repeat split; try done; unfold len; simpl; lia.
  - pose proof (chunk_ids_length _ _ _ _ Hids) as Hlen.
    exists ids. split; [done|].
    assert (Hcount : count (added metadata (split_text text_splitter content) ids st)
                     = count st + len (filter (λ id, id ∉ (collection st).*1) ids)).
    { unfold count, added. cbn [collection].
      rewrite add_records_written.
      rewrite written_filter by (rewrite added_batch_ids; done).
      unfold len. rewrite length_app.
      rewrite (filter_zip_fst (λ id, id ∉ (collection st).*1)
                 (λ r, r.1 ∉ (collection st).*1))
        by (done || by rewrite fragments_length).
      lia. }
    split; [done|]. rewrite Hcount.
    pose proof (length_filter (λ id, id ∉ (collection st).*1) ids).
    unfold len in *. lia.
Qed.

Lemma add_document_count_witness :
  ∃ st',
    add_document (H := length_embedder) (py "hello") fresh_metadata stale_store
    = (Ok 1, st')
    ∧ count st' = count stale_store.
Proof.
  eexists. split; [vm_compute; reflexivity|].
  match goal with
  | |- count ?st' = _ =>
      destruct (add_document_count (H := length_embedder) (py "hello") fresh_metadata
                  stale_store st' 1 eq_refl) as (ids & Hids & Hcount & _)
  end.
  vm_compute in Hids. injection Hids as <-. rewrite Hcount. vm_compute. reflexivity.
Defined.

(** X4.  A lone surrogate in the source identifier, or among the first
    100 characters of a chunk, makes [add_document] raise
    [UnicodeEncodeError] and leave the state as it was. *)
Theorem add_document_surrogate `{Embedder} (content : str) (metadata : Metadata)
    (st : VectorStore) (i : nat) (chunk : str) (c : N) :
  split_text text_splitter content !! i = Some chunk →
  c ∈ py_str (get_url metadata) ++ take 100 chunk →
  is_scalar c = false →
  add_document content metadata st = (Raise UnicodeEncodeError, st).
Proof.
  intros Hi Hc Hns. rewrite add_document_unfold. cbv zeta.
  destruct (split_text text_splitter content) as [|c0 chunks] eqn:Hchunks; [done|].
  cbn [nonempty negb].
  by rewrite (chunk_ids_fail _ 0 _ i chunk UnicodeEncodeError Hi
                (chunk_id_not_scalar _ _ _ c Hc Hns)).
Qed.

Lemma add_document_surrogate_witness :
  split_text text_splitter (py "ab" ++ [56320%N]) !! 0%nat = Some (py "ab" ++ [56320%N])
  ∧ add_document (H := length_embedder) (py "ab" ++ [56320%N]) fresh_metadata stale_store
    = (Raise UnicodeEncodeError, stale_store).
Proof.
  assert (Hi : split_text text_splitter (py "ab" ++ [56320%N]) !! 0%nat
               = Some (py "ab" ++ [56320%N])) by (vm_compute; reflexivity).
  split; [exact Hi|].
  apply (add_document_surrogate (H := length_embedder) _ _ _ 0 _ 56320%N Hi);
    [|reflexivity].
  vm_compute. do 3 right. left.
Defined.

(** X5.  On an empty collection (a new one, or one that was cleared) a
    successful [add_document] leaves exactly the fragments of the
    document, in the order of the chunks, each under its id, and the count
    is the number it returns. *)
Theorem add_document_on_empty `{Embedder} (content : str) (metadata : Metadata)
    (st st' : VectorStore) (n : Z) :
  collection st = [] →
  add_document content metadata st = (Ok n, st') →
  ∃ ids,
    chunk_ids (get_url metadata) 0 (split_text text_splitter content) = Ok ids
    ∧ collection st'
      = zip ids (fragments metadata (len (split_text text_splitter content)) 0
                   (split_text text_splitter content))
    ∧ count st' = n.
Proof.
  intros Hempty Hadd.
  apply add_document_Ok in Hadd as [(Hnil & -> & ->) | (_ & ids & Hids & Hnd & -> & ->)].
  - exists []. rewrite Hnil. unfold count. by rewrite Hempty.
  - pose proof (chunk_ids_length _ _ _ _ Hids) as Hlen.
    exists ids. split; [done|].
    assert (Hcoll : collection (added metadata (split_text text_splitter content) ids st)
                    = zip ids (fragments metadata
                                 (len (split_text text_splitter content)) 0
                                 (split_text text_splitter content))).
    { unfold added. cbn [collection].
      rewrite add_records_written, Hempty. simpl.
      apply written_all. rewrite added_batch_ids; done. }
    split; [done|]. unfold count. rewrite Hcoll. unfold len.
    rewrite length_zip, fragments_length. lia.
Qed.

Lemma add_document_on_empty_witness :
  ∃ st',
    add_document (H := length_embedder) (py "hello") fresh_metadata empty_store
    = (Ok 1, st')
    ∧ count st' = 1.
Proof.
  eexists. split; [vm_compute; reflexivity|].
  match goal with
  | |- count ?st' = _ =>
      destruct (add_document_on_empty (H := length_embedder) (py "hello") fresh_metadata
                  empty_store st' 1 eq_refl eq_refl) as (ids & _ & _ & Hcount)
  end.
  exact Hcount.
Defined.

(** ** Invariants of the collection *)

Section InvariantFacts.
Context `{Embedder}.

Lemma zip_fragments_elem (metadata : Metadata) (total : Z) (i : nat)
    (ids : list str) (chunks : list str) (r : str * Entry) :
  r ∈ zip ids (fragments metadata total i chunks) →
  ∃ k chunk, chunks !! k = Some chunk ∧ r.2 = fragment metadata total (i + k) chunk.
Proof.
  revert i ids. induction chunks as [|c chunks IH]; intros i [|id ids]; simpl;
    try by intros ?%elem_of_nil.
  intros [->|Hr]%elem_of_cons.
  - exists 0%nat, c. by rewrite Nat.add_0_r.
  - destruct (IH _ _ Hr) as (k & chunk & Hk & Hfr).
    exists (S k), chunk. split; [done|]. by rewrite <- Nat.add_succ_comm.
Qed.



(** The fields of the document's metadata other than the two positions
    are carried over to every fragment. *)
Lemma chunk_metadata_other metadata i total key :
  key ≠ py "total_chunks" → key ≠ py "chunk_index" →
  chunk_metadata metadata i total !! key = metadata !! key.
Proof.
  intros H1 H2. unfold chunk_metadata. by rewrite !lookup_insert_ne.
Qed.

Lemma added_new metadata chunks ids st :
  length ids = length chunks → NoDup ids →
  ∃ new,
    collection (added metadata chunks ids st) = collection st ++ new
    ∧ Forall (λ r, (r.1 ∉ (collection st).*1)
                   ∧ ∃ k chunk, chunks !! k = Some chunk
                                ∧ r.2 = fragment metadata (len chunks) k chunk) new.
Proof.
  intros Hlen Hnd. unfold added. cbn [collection].
  eexists. split; [apply add_records_written|].
  eapply Forall_impl; [apply written_fresh|]. intros r [Hfresh Hin].
  split; [done|]. by apply zip_fragments_elem in Hin.
Qed.






Lemma search_collection query n w st :
  collection (search query n w st).2 = collection st.
Proof. rewrite search_unfold. cbv zeta. by destruct (n <=? 0). Qed.

(** [get_all_sources] and [get_stats] run the loop over the metadata of
    the entries and leave the state as it is. *)
Lemma get_all_sources_unfold st :
  get_all_sources st
  = (sources_loop ((λ r, e_metadata r.2) <$> collection st) [], st).
Proof.
  unfold get_all_sources, collection_get_all, mbind, M_mbind, bind, ret, lift,
    get_collection.
  destruct (collection st) as [|r c]; [done|]. cbn [fmap list_fmap nonempty].
  by destruct (sources_loop _ _).
Qed.

Lemma get_stats_unfold st :
  get_stats st
  = (srcs ← sources_loop ((λ r, e_metadata r.2) <$> collection st) [];
     Ok {| total_chunks := count st; total_sources := len srcs; sources := srcs |},
     st).
Proof.
  unfold get_stats, collection_count, mbind at 1 2, M_mbind, bind, ret.
  rewrite get_all_sources_unfold.
  by destruct (sources_loop _ _).
Qed.

Lemma get_stats_state st : (get_stats st).2 = st.
Proof. rewrite get_stats_unfold. by destruct (sources_loop _ _). Qed.
End InvariantFacts.

(** X6.  The ids of the collection stay pairwise distinct: a new
    collection has no repeated id, and [add_document], [delete_by_url]
    and [clear] keep it so whatever their outcome; [search] and
    [get_stats] do not touch the collection. *)
Theorem operations_keep_ids_unique `{Embedder} (st : VectorStore) (content : str)
    (metadata : Metadata) (url query : str) (n : Z) (w : option Where) :
  unique_ids (collection (VectorStore_init None))
  ∧ (unique_ids (collection st) →
     unique_ids (collection (add_document content metadata st).2)
     ∧ unique_ids (collection (delete_by_url url st).2)
     ∧ unique_ids (collection (clear st).2)
     ∧ collection (search query n w st).2 = collection st
     ∧ collection (get_stats st).2 = collection st).
Proof.
  split; [apply NoDup_nil_2|]. intros Hu.
  split; [by apply add_document_unique|].
  split; [by apply delete_by_url_unique|].
  split; [apply NoDup_nil_2|].
  split; [apply search_collection|]. by rewrite get_stats_state.
Qed.

Lemma operations_keep_ids_unique_witness :
  unique_ids (collection stale_store)
  ∧ unique_ids (collection (add_document (H := length_embedder) (py "hello")
                              file_a_metadata stale_store).2).
Proof.
  assert (Hu : unique_ids (collection stale_store)).
  { vm_compute. apply NoDup_singleton. }
  split; [exact Hu|].
  destruct (operations_keep_ids_unique (H := length_embedder) stale_store (py "hello")
              file_a_metadata (py "u") (py "q") 5 None) as [_ Hkeep].
  exact (proj1 (Hkeep Hu)).
Defined.



(** ** Deletion by source, further *)

Section DeletionScope.
Context `{Embedder}.

Lemma matches_field (key : str) (v : value) (r : str * Entry) :
  matches (Some (key, v)) r = true ↔ e_metadata r.2 !! key = Some v.
Proof. simpl. apply bool_decide_eq_true. Qed.

Lemma ids_where_app (w : Where) (c1 c2 : Collection) :
  ids_where w (c1 ++ c2) = ids_where w c1 ++ ids_where w c2.
Proof. unfold ids_where, Collection in *. by rewrite filter_app, fmap_app. Qed.

Lemma ids_where_none (w : Where) (c : Collection) :
  Forall (λ r, matches (Some w) r ≠ true) c → ids_where w c = [].
Proof.
  unfold ids_where, Collection in *. induction 1 as [|r c Hr _ IH]; [done|].
  by rewrite filter_cons_False.
Qed.

Lemma ids_where_all (w : Where) (c : Collection) :
  Forall (λ r, matches (Some w) r = true) c → ids_where w c = c.*1.
Proof.
  unfold ids_where, Collection in *. intros Hc. rewrite filter_all; [done|].
  intros r Hr. by eapply Forall_forall in Hc.
Qed.

(** An entry that matches the filter has its id among the fetched ids. *)
Lemma ids_where_matching (w : Where) (c : Collection) r :
  r ∈ c → matches (Some w) r = true → r.1 ∈ ids_where w c.
Proof.
  intros Hr Hm. unfold ids_where. apply list_elem_of_fmap_2.
  by apply list_elem_of_filter.
Qed.

(** After the deletion of the fetched ids no entry matches the filter. *)
Lemma delete_leaves_no_match (w : Where) (c : Collection) :
  Forall (λ r, matches (Some w) r ≠ true) (filter (λ r, r.1 ∉ ids_where w c) c).
Proof.
  apply Forall_forall. intros r [Hid Hr]%list_elem_of_filter Hm.
  apply Hid. by apply ids_where_matching.
Qed.

Lemma filter_no_match (P : str * Entry → Prop) `{!∀ r, Decision (P r)}
    (w : Where) (c : Collection) :
  Forall (λ r, matches (Some w) r ≠ true) c →
  Forall (λ r, matches (Some w) r ≠ true) (filter P c).
Proof.
  intros Hc. apply Forall_forall. intros r [_ Hr]%list_elem_of_filter.
  by eapply Forall_forall in Hc.
Qed.

Lemma filter_none {A} (P : A → Prop) `{!∀ x, Decision (P x)} (l : list A) :
  (∀ x, x ∈ l → ¬ P x) → filter P l = [].
Proof.
  induction l as [|x l IH]; intros HP; [done|].
  rewrite filter_cons_False by (apply HP; by left).
  apply IH. intros y Hy. apply HP. by right.
Qed.

Lemma nonempty_true {A} (l : list A) : nonempty l = true ↔ l ≠ [].
Proof. by destruct l. Qed.
End DeletionScope.

(** X8.  Ingesting a document under a source that the collection does not
    know, and then deleting that source, restores the collection:
    [delete_by_url] removes exactly the entries that [add_document]
    wrote, and returns their number. *)
Theorem add_then_delete_restores `{Embedder} (content : str) (metadata : Metadata)
    (u : str) (st st1 : VectorStore) (n : Z) :
  metadata !! py "url" = Some (VStr u) →
  Forall (λ r, e_metadata r.2 !! py "url" ≠ Some (VStr u)
               ∧ e_metadata r.2 !! py "source" ≠ Some (VStr u)) (collection st) →
  add_document content metadata st = (Ok n, st1) →
  ∃ st2,
    delete_by_url u st1 = (Ok (count st1 - count st), st2)
    ∧ collection st2 = collection st.
Proof.
  intros Hurl Hunknown Hadd.
  assert (Hnew : ∃ new : Collection,
            collection st1 = collection st ++ new
            ∧ Forall (λ r, r.1 ∉ (collection st).*1) new
            ∧ Forall (λ r, matches (Some (py "url", VStr u)) r = true) new).
  { apply add_document_Ok in Hadd
      as [(_ & _ & ->) | (_ & ids & Hids & Hnd & _ & ->)].
    - exists []. rewrite app_nil_r. by repeat split.
    - destruct (added_new metadata (split_text text_splitter content) ids st)
        as (new & Hcoll & Hfr); [by eapply chunk_ids_length | done |].
      exists new. split; [done|]. split.
      + eapply Forall_impl; [exact Hfr|]. by intros r [? _].
      + eapply Forall_impl; [exact Hfr|].
        intros r (_ & k & chunk & _ & Hr). apply matches_field. rewrite Hr.
        etrans; [|exact Hurl].
        apply (chunk_metadata_other metadata k _ (py "url")); by vm_compute. }
  destruct Hnew as (new & Hcoll & Hfresh & Hmatch).
  assert (Hold_url : Forall (λ r, matches (Some (py "url", VStr u)) r ≠ true)
                       (collection st)).
  { eapply Forall_impl; [exact Hunknown|]. intros r [Hr _]. by rewrite matches_field. }
  assert (Hold_src : Forall (λ r, matches (Some (py "source", VStr u)) r ≠ true)
                       (collection st)).
  { eapply Forall_impl; [exact Hunknown|]. intros r [_ Hr]. by rewrite matches_field. }
  assert (Hby_url : ids_where (py "url", VStr u) (collection st1) = new.*1).
  { rewrite Hcoll, ids_where_app, ids_where_none, ids_where_all by done. done. }
  assert (Hcount : count st1 - count st = len new.*1).
  { unfold count, len. rewrite Hcoll, length_app, length_fmap. lia. }
  rewrite delete_by_url_unfold. cbv zeta. rewrite Hby_url, Hcount.
  unfold Collection in *.
  destruct new as [|r0 new'] eqn:Hn.
  - rewrite app_nil_r in Hcoll. cbn [fmap list_fmap nonempty].
    rewrite Hcoll, ids_where_none by done. cbn [nonempty].
    eexists. split; [reflexivity | done].
  - rewrite <- Hn in *. assert (nonempty new.*1 = true) as -> by by rewrite Hn.
    eexists. split; [reflexivity|]. cbn [collection].
    rewrite Hcoll, filter_app.
    rewrite (filter_all _ (collection st)); cycle 1.
    { intros r Hr Hin. apply list_elem_of_fmap in Hin as (r' & Heq & Hr').
      eapply Forall_forall in Hfresh; [|exact Hr']. apply Hfresh. rewrite <- Heq.
      by apply list_elem_of_fmap_2. }
    assert (filter (λ r, r.1 ∉ new.*1) new = []) as ->; [|by rewrite app_nil_r].
    apply filter_none. intros x Hx Hnot. apply Hnot. by apply list_elem_of_fmap_2.
Qed.

Lemma add_then_delete_restores_witness :
  ∃ st1 st2,
    add_document (H := length_embedder) (py "hello") fresh_metadata empty_store
    = (Ok 1, st1)
    ∧ delete_by_url (py "u") st1 = (Ok 1, st2)
    ∧ collection st2 = [].
Proof.
  eexists. 
  match goal with
  | |- ∃ st2, add_document _ _ _ = (_, ?st1) ∧ _ =>
      assert (Hadd : add_document (H := length_embedder) (py "hello") fresh_metadata
                       empty_store = (Ok 1, st1)) by (vm_compute; reflexivity);
      destruct (add_then_delete_restores (H := length_embedder) (py "hello")
                  fresh_metadata (py "u") empty_store st1 1 eq_refl
                  (Forall_nil_2 _) Hadd) as (st2 & Hdel & Hcoll)
  end.
  exists st2. split; [exact Hadd|]. split; [exact Hdel | exact Hcoll].
Defined.

Section DeletionTwice.
Context `{Embedder}.

Lemma ids_where_nil_no_match (w : Where) (c : Collection) :
  ids_where w c = [] → Forall (λ r, matches (Some w) r ≠ true) c.
Proof.
  intros Hnil. apply Forall_forall. intros r Hr Hm.
  pose proof (ids_where_matching w c r Hr Hm) as Hin.
  rewrite Hnil in Hin. by apply elem_of_nil in Hin.
Qed.

(** After one call no entry has the url. *)
Lemma delete_by_url_no_url s st :
  Forall (λ r, matches (Some (py "url", VStr s)) r ≠ true)
    (collection (delete_by_url s st).2).
Proof.
  rewrite delete_by_url_unfold. cbv zeta.
  destruct (nonempty (ids_where (py "url", VStr s) (collection st))) eqn:Hurl;
    cbn [snd collection].
  - apply delete_leaves_no_match.
  - apply nonempty_false in Hurl. apply ids_where_nil_no_match in Hurl.
    destruct (nonempty _); cbn [snd collection]; [by apply filter_no_match | done].
Qed.

(** When no entry has the url, one call leaves no entry with the source
    either. *)
Lemma delete_by_url_clean s st :
  Forall (λ r, matches (Some (py "url", VStr s)) r ≠ true) (collection st) →
  Forall (λ r, matches (Some (py "url", VStr s)) r ≠ true
               ∧ matches (Some (py "source", VStr s)) r ≠ true)
    (collection (delete_by_url s st).2).
Proof.
  intros Hno. rewrite delete_by_url_unfold. cbv zeta.
  rewrite (ids_where_none _ _ Hno). cbn [nonempty].
  destruct (nonempty (ids_where (py "source", VStr s) (collection st))) eqn:Hsrc;
    cbn [snd collection].
  - apply Forall_and. split; [by apply filter_no_match | apply delete_leaves_no_match].
  - apply nonempty_false in Hsrc. apply ids_where_nil_no_match in Hsrc.
    apply Forall_and. by split.
Qed.
End DeletionTwice.

(** X9.  [delete_by_url(s)] deletes by one field only.  When some entry
    has the url [s], every entry whose url is not [s] is kept, also one
    whose [source] is [s]; when no entry has the url [s], every entry
    whose source is not [s] is kept. *)
Theorem delete_by_url_scope `{Embedder} (s : str) (st : VectorStore) (r : str * Entry) :
  unique_ids (collection st) →
  r ∈ collection st →
  (ids_where (py "url", VStr s) (collection st) ≠ [] →
   e_metadata r.2 !! py "url" ≠ Some (VStr s) →
   r ∈ collection (delete_by_url s st).2)
  ∧ (ids_where (py "url", VStr s) (collection st) = [] →
     e_metadata r.2 !! py "source" ≠ Some (VStr s) →
     r ∈ collection (delete_by_url s st).2).
Proof.
  intros Hu Hr. rewrite delete_by_url_unfold. cbv zeta. split.
  - intros Hne%nonempty_true Hurl. rewrite Hne. cbn [snd collection].
    apply list_elem_of_filter. split; [|done].
    rewrite (ids_where_elem _ _ r Hu Hr), matches_field. done.
  - intros Hnil Hsrc. rewrite Hnil. cbn [nonempty].
    destruct (nonempty _); cbn [snd collection]; [|done].
    apply list_elem_of_filter. split; [|done].
    rewrite (ids_where_elem _ _ r Hu Hr), matches_field. done.
Qed.

(** X10.  One call of [delete_by_url(s)] may leave entries whose [source]
    is [s]; after two calls no entry has [s] as its url or as its source,
    and a further call returns 0 and changes nothing. *)
Theorem delete_by_url_twice `{Embedder} (s : str) (st : VectorStore) :
  let st2 := (delete_by_url s (delete_by_url s st).2).2 in
  Forall (λ r, e_metadata r.2 !! py "url" ≠ Some (VStr s)
               ∧ e_metadata r.2 !! py "source" ≠ Some (VStr s)) (collection st2)
  ∧ ∃ st3, delete_by_url s st2 = (Ok 0, st3) ∧ collection st3 = collection st2.
Proof.
  intros st2.
  pose proof (delete_by_url_clean s _ (delete_by_url_no_url s st)) as Hclean.
  fold st2 in Hclean. apply Forall_and in Hclean as [Hurl Hsrc]. split.
  - apply Forall_and. split.
    + eapply Forall_impl; [exact Hurl|]. intros r Hr. by rewrite <- matches_field.
    + eapply Forall_impl; [exact Hsrc|]. intros r Hr. by rewrite <- matches_field.
  - rewrite delete_by_url_unfold. cbv zeta.
    rewrite (ids_where_none _ _ Hurl), (ids_where_none _ _ Hsrc). cbn [nonempty].
    by eexists.
Qed.

Lemma delete_by_url_scope_witness :
  unique_ids (collection mixed_store)
  ∧ ∃ r,
      collection mixed_store !! 1%nat = Some r
      ∧ e_metadata r.2 !! py "source" = Some (VStr (py "s"))
      ∧ r ∈ collection (delete_by_url (py "s") mixed_store).2.
Proof.
  assert (Hu : unique_ids (collection mixed_store)).
  { apply (add_document_unique (H := length_embedder)).
    apply (add_document_unique (H := length_embedder)). apply NoDup_nil_2. }
  split; [exact Hu|].
  destruct (collection mixed_store !! 1%nat) as [r|] eqn:Hr;
    [|vm_compute in Hr; discriminate Hr].
  exists r. split; [reflexivity|].
  assert (Hin : r ∈ collection mixed_store) by by eapply list_elem_of_lookup_2.
  assert (Hr' := Hr). vm_compute in Hr'. injection Hr' as Hr'.
  split; [rewrite <- Hr'; vm_compute; reflexivity|].
  destruct (delete_by_url_scope (H := length_embedder) (py "s") mixed_store r Hu Hin)
    as [Hkeep _].
  apply Hkeep.
  - vm_compute. discriminate.
  - rewrite <- Hr'. vm_compute. discriminate.
Defined.

(** One call is not enough on a collection that has both a page and a
    file named [s]: the first call removes the page, the second the
    file. *)
Example delete_by_url_two_rounds :
  let r1 := delete_by_url (py "s") mixed_store in
  let r2 := delete_by_url (py "s") r1.2 in
  count mixed_store = 2
  ∧ r1.1 = Ok 1 ∧ count r1.2 = 1
  ∧ r2.1 = Ok 1 ∧ count r2.2 = 0.
Proof. vm_compute. repeat split; reflexivity. Qed.

(** ** Retrieval, further *)

(** X11.  For a positive number of requested results [search] returns
    and leaves the collection as it was, after one call to the model and
    one query.  It returns as many hits as requested, or every matching
    entry when there are fewer, and each hit is the content and metadata
    of an entry of the collection that passes the filter, with its
    distance to the query. *)
Theorem search_returns_matching_entries `{Embedder} (query : str) (n : Z)
    (w : option Where) (st : VectorStore) :
  0 < n →
  ∃ hits st',
    search query n w st = (Ok hits, st')
    ∧ collection st' = collection st
    ∧ calls st' = calls st ++ [CallEncode [query]; CallQuery n w]
    ∧ len hits = Z.min n (len (filter (λ r, matches w r = true) (collection st)))
    ∧ ∀ h, h ∈ hits →
        ∃ r, r ∈ collection st ∧ matches w r = true
             ∧ h = {| content := e_document r.2;
                      metadata := e_metadata r.2;
                      distance := Some (cosine_distance (model_encode query)
                                          (e_embedding r.2)) |}.
Proof.
  intros Hn. rewrite search_unfold. cbv zeta.
  destruct (n <=? 0) eqn:Hle; [bool_to_prop; lia|].
  eexists _, _. split; [reflexivity|]. cbn [collection calls].
  split; [done|]. split; [done|]. split.
  - unfold len at 1. rewrite length_fmap. apply nearest_exact_length. lia.
  - intros h Hh. apply list_elem_of_fmap in Hh as (r & -> & Hr).
    apply nearest_elem in Hr as [Hr Hm]. by exists r.
Qed.

Lemma search_returns_matching_entries_witness :
  ∃ hits st',
    search (H := length_embedder) (py "fox") 5 None mixed_store = (Ok hits, st')
    ∧ len hits = 2.
Proof.
  destruct (search_returns_matching_entries (H := length_embedder) (py "fox") 5 None
              mixed_store) as (hits & st' & Hs & _ & _ & Hlen & _); [lia|].
  exists hits, st'. split; [exact Hs|]. rewrite Hlen. vm_compute. reflexivity.
Defined.

(** ** Sources, statistics and reset *)

Section SourcesFacts.
Context `{Embedder}.

Lemma py_eqb_refl v : py_eqb v v = true.
Proof. destruct v; simpl; by apply bool_decide_eq_true. Qed.

Lemma py_eqb_sym v w : py_eqb v w = py_eqb w v.
Proof.
  destruct v, w; simpl; try done; apply bool_decide_ext; split; congruence.
Qed.

Lemma py_eqb_trans u v w :
  py_eqb u v = true → py_eqb v w = true → py_eqb u w = true.
Proof.
  destruct u, v, w; simpl; try done;
    rewrite !bool_decide_eq_true; try congruence;
    repeat match goal with b : bool |- _ => destruct b end; congruence.
Qed.

Lemma py_eqb_str s w : py_eqb (VStr s) w = true ↔ w = VStr s.
Proof.
  destruct w; simpl; try (split; [done | discriminate]).
  rewrite bool_decide_eq_true. split; congruence.
Qed.

Lemma in_set_app v l k : in_set v (l ++ k) ↔ in_set v l ∨ in_set v k.
Proof. unfold in_set. by rewrite existsb_app, orb_true_iff. Qed.

Lemma in_set_congr u v l : py_eqb u v = true → in_set v l → in_set u l.
Proof.
  unfold in_set. intros Huv. rewrite !existsb_exists.
  intros (x & Hx & Hvx). exists x. split; [done|]. by eapply py_eqb_trans.
Qed.

Lemma set_add_in v w l : in_set v (set_add l w) ↔ in_set v l ∨ py_eqb v w = true.
Proof.
  unfold set_add. destruct (existsb (py_eqb w) l) eqn:Hw.
  - split; [auto|]. intros [?|Hvw]; [done|]. by eapply in_set_congr.
  - rewrite in_set_app. unfold in_set at 2. simpl. by rewrite orb_false_r.
Qed.

Lemma distinct_values_snoc l w :
  distinct_values l → existsb (py_eqb w) l = false → distinct_values (l ++ [w]).
Proof.
  induction l as [|x l IH]; simpl; [done|].
  intros [Hx Hl] [Hwx Hw]%orb_false_iff. split; [|by apply IH].
  rewrite existsb_app, Hx. simpl. by rewrite py_eqb_sym, Hwx.
Qed.

Lemma set_add_distinct l w : distinct_values l → distinct_values (set_add l w).
Proof.
  intros Hl. unfold set_add. destruct (existsb (py_eqb w) l) eqn:Hw; [done|].
  by apply distinct_values_snoc.
Qed.

Lemma set_add_length l w : (length l ≤ length (set_add l w) ≤ S (length l))%nat.
Proof.
  unfold set_add. destruct (existsb _ _); [lia|]. rewrite length_app. simpl. lia.
Qed.

Lemma sources_step_source_of acc metadata :
  sources_step acc metadata
  = match source_of metadata with Some v => set_add acc v | None => acc end.
Proof. unfold sources_step, source_of. by destruct (metadata !! py "url"). Qed.

Lemma sources_fold_in v metas acc :
  in_set v (fold_left sources_step metas acc)
  ↔ in_set v acc
    ∨ ∃ m v', m ∈ metas ∧ source_of m = Some v' ∧ py_eqb v v' = true.
Proof.
  revert acc. induction metas as [|m metas IH]; intros acc; simpl.
  - split; [auto|]. intros [?|(m & v' & Hm & _)]; [done|]. by apply elem_of_nil in Hm.
  - rewrite IH, sources_step_source_of. destruct (source_of m) as [vm|] eqn:Hsrc.
    + rewrite set_add_in. split.
      * intros [[?|Heq]|(m' & v' & Hm' & Hs & He)]; [by left | right | right].
        -- exists m, vm. split; [by left | done].
        -- exists m', v'. split; [by right | done].
      * intros [?|(m' & v' & [->|Hm']%elem_of_cons & Hs & He)]; [by left; left | |].
        -- left. right. congruence.
        -- right. by exists m', v'.
    + split.
      * intros [?|(m' & v' & Hm' & Hs & He)]; [by left|].
        right. exists m', v'. split; [by right | done].
      * intros [?|(m' & v' & [->|Hm']%elem_of_cons & Hs & He)]; [by left | congruence |].
        right. by exists m', v'.
Qed.

Lemma sources_fold_distinct metas acc :
  distinct_values acc → distinct_values (fold_left sources_step metas acc).
Proof.
  revert acc. induction metas as [|m metas IH]; intros acc Hacc; simpl; [done|].
  apply IH. rewrite sources_step_source_of.
  destruct (source_of m); [by apply set_add_distinct | done].
Qed.

Lemma sources_fold_length metas acc :
  (length acc ≤ length (fold_left sources_step metas acc)
   ≤ length acc + length metas)%nat.
Proof.
  revert acc. induction metas as [|m metas IH]; intros acc; simpl; [lia|].
  specialize (IH (sources_step acc m)). rewrite sources_step_source_of in *.
  destruct (source_of m) as [v|]; [|lia].
  pose proof (set_add_length acc v). lia.
Qed.

Lemma sources_fold_none metas :
  Forall (λ m, source_of m = None) metas → fold_left sources_step metas [] = [].
Proof.
  generalize (@nil value). induction 1 as [|m metas Hm _ IH]; simpl; [done|].
  by rewrite sources_step_source_of, Hm.
Qed.

(** On entries that all have a metadata record the loop is a fold; it
    raises at the first entry that has none. *)
Lemma sources_loop_records (c : Collection) acc :
  with_metadata c →
  sources_loop ((λ r, e_metadata r.2) <$> c) acc
  = Ok (fold_left sources_step (records c) acc).
Proof.
  intros Hc. revert acc. induction Hc as [|r c [m Hm] _ IH]; intros acc; simpl; [done|].
  rewrite Hm. simpl. apply IH.
Qed.

Lemma sources_loop_raises (c : Collection) acc :
  ¬ with_metadata c →
  sources_loop ((λ r, e_metadata r.2) <$> c) acc = Raise TypeError.
Proof.
  revert acc. induction c as [|r c IH]; intros acc Hc; simpl.
  - destruct Hc. constructor.
  - destruct (e_metadata r.2) as [m|] eqn:Hm; [|done].
    apply IH. intros Hrest. apply Hc. constructor; [by rewrite Hm | done].
Qed.

Lemma entry_source_records (r : str * Entry) :
  source_of (default ∅ (e_metadata r.2)) = entry_source r.2.
Proof. unfold entry_source. by destruct (e_metadata r.2). Qed.

Lemma records_source_in (c : Collection) v :
  (∃ m, m ∈ records c ∧ source_of m = Some v)
  ↔ ∃ r, r ∈ c ∧ entry_source r.2 = Some v.
Proof.
  unfold records. split.
  - intros (m & (r & -> & Hr)%list_elem_of_fmap & Hs).
    exists r. by rewrite <- entry_source_records.
  - intros (r & Hr & Hs). exists (default ∅ (e_metadata r.2)).
    split; [|by rewrite entry_source_records].
    by apply (list_elem_of_fmap_2 (λ r, default ∅ (e_metadata r.2))).
Qed.
End SourcesFacts.

(** X12.  On a collection whose entries all have metadata (every entry
    that [add_document] writes has) [get_all_sources] returns, without
    repetition, the sources of the entries: the [url] of an entry, or its
    [source] when it has no [url]; an entry with neither contributes
    nothing, and the [source] of an entry that has a [url] is not listed.
    On a collection with an entry without metadata it raises
    [TypeError].  In both cases the store is not changed. *)
Theorem get_all_sources_spec `{Embedder} (st : VectorStore) :
  (with_metadata (collection st) →
   ∃ srcs,
     get_all_sources st = (Ok srcs, st)
     ∧ distinct_values srcs
     ∧ (∀ v, in_set v srcs
             ↔ ∃ r v', r ∈ collection st
                       ∧ entry_source r.2 = Some v' ∧ py_eqb v v' = true)
     ∧ (∀ s, VStr s ∈ srcs
             ↔ ∃ r, r ∈ collection st ∧ entry_source r.2 = Some (VStr s)))
  ∧ (¬ with_metadata (collection st) →
     get_all_sources st = (Raise TypeError, st)).
Proof.
  rewrite get_all_sources_unfold. split; [|by intros ->%(sources_loop_raises _ [])].
  intros Hw. rewrite (sources_loop_records _ [] Hw).
  eexists. split; [reflexivity|].
  split; [by apply sources_fold_distinct|].
  assert (Hin : ∀ v,
            in_set v (fold_left sources_step (records (collection st)) [])
            ↔ ∃ r v', r ∈ collection st
                      ∧ entry_source r.2 = Some v' ∧ py_eqb v v' = true).
  { intros v. rewrite sources_fold_in. split.
    - intros [Hnil|(m & v' & Hm & Hs & He)]; [done|].
      destruct (proj1 (records_source_in (collection st) v')) as (r & Hr & Hsrc);
        [by exists m|]. by exists r, v'.
    - intros (r & v' & Hr & Hs & He). right.
      destruct (proj2 (records_source_in (collection st) v')) as (m & Hm & Hsrc);
        [by exists r|]. by exists m, v'. }
  split; [exact Hin|]. intros s. split.
  - intros Hs.
    assert (Hset : in_set (VStr s)
              (fold_left sources_step (records (collection st)) [])).
    { unfold in_set. apply existsb_exists. exists (VStr s).
      split; [by apply list_elem_of_In | apply py_eqb_refl]. }
    apply Hin in Hset as (r & v' & Hr & Hsrc & He). apply py_eqb_str in He as ->.
    by exists r.
  - intros (r & Hr & Hsrc).
    assert (Hset : in_set (VStr s)
              (fold_left sources_step (records (collection st)) [])).
    { apply Hin. exists r, (VStr s). split; [done|]. split; [done | apply py_eqb_refl]. }
    unfold in_set in Hset. apply existsb_exists in Hset as (x & Hx & He).
    apply py_eqb_str in He as ->. by apply list_elem_of_In.
Qed.

Lemma get_all_sources_spec_witness :
  with_metadata (collection mixed_store)
  ∧ (get_all_sources mixed_store).1 = Ok [VStr (py "s")]
  ∧ ¬ with_metadata (collection bare_store)
  ∧ get_all_sources bare_store = (Raise TypeError, bare_store).
Proof.
  assert (Hw : with_metadata (collection mixed_store)).
  { vm_compute. repeat constructor; by eexists. }
  assert (Hb : ¬ with_metadata (collection bare_store)).
  { intros Hall. apply Forall_inv in Hall. by destruct Hall. }
  destruct (get_all_sources_spec (H := length_embedder) mixed_store) as [Hok _].
  destruct (get_all_sources_spec (H := length_embedder) bare_store) as [_ Hraise].
  destruct (Hok Hw) as (srcs & Hsrcs & _).
  split; [exact Hw|]. split; [vm_compute; reflexivity|].
  split; [exact Hb | exact (Hraise Hb)].
Defined.

(** X13.  On a collection whose entries all have metadata [get_stats]
    reports the count of the collection and the number of its sources,
    which never exceeds the count and is zero exactly when no entry has a
    [url] or a [source]; on a collection with an entry without metadata
    it raises the [TypeError] of [get_all_sources].  In both cases it
    changes nothing. *)
Theorem get_stats_spec `{Embedder} (st : VectorStore) :
  (with_metadata (collection st) →
   ∃ stats,
     get_stats st = (Ok stats, st)
     ∧ (get_all_sources st).1 = Ok (sources stats)
     ∧ total_chunks stats = count st
     ∧ total_sources stats = len (sources stats)
     ∧ 0 ≤ total_sources stats ≤ total_chunks stats
     ∧ (total_sources stats = 0
        ↔ Forall (λ r, entry_source r.2 = None) (collection st)))
  ∧ (¬ with_metadata (collection st) →
     get_stats st = (Raise TypeError, st)).
Proof.
  rewrite get_stats_unfold, get_all_sources_unfold.
  split; [|by intros ->%(sources_loop_raises _ [])].
  intros Hw. rewrite (sources_loop_records _ [] Hw). eexists.
  split; [reflexivity|]. cbn [fst sources total_chunks total_sources].
  split; [done|]. split; [done|]. split; [done|].
  pose proof (sources_fold_length (records (collection st)) []) as Hlen.
  unfold records in Hlen. rewrite length_fmap in Hlen. simpl in Hlen.
  fold (records (collection st)) in Hlen.
  split; [unfold count, len; lia|]. split.
  - intros Hzero. apply Forall_forall. intros r Hr.
    destruct (entry_source r.2) as [v|] eqn:Hsrc; [|done]. exfalso.
    assert (Hin : in_set v (fold_left sources_step (records (collection st)) [])).
    { apply sources_fold_in. right.
      destruct (proj2 (records_source_in (collection st) v)) as (m & Hm & Hs);
        [by exists r|].
      exists m, v. split; [done|]. split; [done | apply py_eqb_refl]. }
    destruct (fold_left _ _ _); [done|]. unfold len in Hzero. simpl in Hzero. lia.
  - intros Hnone. rewrite sources_fold_none; [done|].
    unfold records. apply Forall_fmap. eapply Forall_impl; [exact Hnone|].
    intros r Hr. simpl. by rewrite entry_source_records.
Qed.

Lemma get_stats_spec_witness :
  with_metadata (collection mixed_store)
  ∧ (∃ stats, get_stats mixed_store = (Ok stats, mixed_store)
              ∧ total_chunks stats = 2 ∧ total_sources stats = 1)
  ∧ ¬ with_metadata (collection bare_store)
  ∧ get_stats bare_store = (Raise TypeError, bare_store).
Proof.
  assert (Hw : with_metadata (collection mixed_store)).
  { vm_compute. repeat constructor; by eexists. }
  assert (Hb : ¬ with_metadata (collection bare_store)).
  { intros Hall. apply Forall_inv in Hall. by destruct Hall. }
  destruct (get_stats_spec (H := length_embedder) mixed_store) as [Hok _].
  destruct (get_stats_spec (H := length_embedder) bare_store) as [_ Hraise].
  destruct (Hok Hw) as (stats & Hstats & _ & Hchunks & Hsources & _).
  split; [exact Hw|]. split.
  - exists stats. split; [exact Hstats|].
    assert (Hs : (get_stats mixed_store).1 = Ok stats) by (by rewrite Hstats).
    vm_compute in Hs. injection Hs as <-. split; reflexivity.
  - split; [exact Hb | exact (Hraise Hb)].
Defined.

(** X14.  [clear] leaves an empty collection whatever was stored: the
    count is 0, the statistics are all zero, a search finds nothing and a
    deletion removes nothing. *)
Theorem clear_resets `{Embedder} (st : VectorStore) (query url : str) (n : Z)
    (w : option Where) :
  let st' := (clear st).2 in
  clear st = (Ok tt, st')
  ∧ collection st' = []
  ∧ count st' = 0
  ∧ (get_stats st').1 = Ok {| total_chunks := 0; total_sources := 0; sources := [] |}
  ∧ (delete_by_url url st').1 = Ok 0
  ∧ (0 < n → (search query n w st').1 = Ok []).
Proof.
  intros st'. split; [done|]. split; [done|]. split; [done|].
  split; [by rewrite get_stats_unfold|].
  split; [by rewrite delete_by_url_unfold|].
  intros Hn. rewrite search_unfold. cbv zeta.
  destruct (n <=? 0) eqn:Hle; [bool_to_prop; lia|]. cbn [fst].
  by rewrite nearest_no_match by constructor.
Qed.

Lemma clear_resets_witness :
  (search (H := length_embedder) (py "fox") 5 None (clear mixed_store).2).1 = Ok []
  ∧ count (clear mixed_store).2 = 0.
Proof.
  destruct (clear_resets (H := length_embedder) mixed_store (py "fox") (py "s") 5 None)
    as (_ & _ & Hcount & _ & _ & Hsearch).
  split; [apply Hsearch; lia | exact Hcount].
Defined.

(** The statistics of the collection with a page and a file of the same
    name: two fragments, one source. *)
Example get_stats_mixed :
  (get_stats mixed_store).1
  = Ok {| total_chunks := 2; total_sources := 1; sources := [VStr (py "s")] |}.
Proof. vm_compute. reflexivity. Qed.

(** ** The scraper, further *)

Section StripFacts.

Lemma lstrip_suffix s : lstrip s `suffix_of` s.
Proof.
  induction s as [|c s IH]; simpl; [done|].
  destruct (isspace c); [by apply suffix_cons_r | done].
Qed.

Lemma lstrip_head s c t : lstrip s = c :: t → isspace c = false.
Proof.
  induction s as [|x s IH]; simpl; [done|].
  destruct (isspace x) eqn:Hx; [done|]. by intros [= <- _].
Qed.

Lemma lstrip_nonspace c s : isspace c = false → lstrip (c :: s) = c :: s.
Proof. intros Hc. simpl. by rewrite Hc. Qed.

Lemma lstrip_snoc_nonspace s x :
  isspace x = false → lstrip (s ++ [x]) = lstrip s ++ [x].
Proof.
  intros Hx. induction s as [|c s IH]; simpl; [by rewrite Hx|].
  by destruct (isspace c).
Qed.

Lemma rstrip_cons_nonspace c s : isspace c = false → rstrip (c :: s) = c :: rstrip s.
Proof.
  intros Hc. unfold rstrip. simpl.
  by rewrite lstrip_snoc_nonspace, rev_app_distr.
Qed.

Lemma rstrip_prefix s : rstrip s `prefix_of` s.
Proof.
  unfold rstrip. destruct (lstrip_suffix (rev s)) as [k Hk].
  exists (rev k). apply (f_equal (@rev N)) in Hk.
  by rewrite rev_involutive, rev_app_distr in Hk.
Qed.

Lemma rstrip_idem s : rstrip (rstrip s) = rstrip s.
Proof.
  unfold rstrip. rewrite rev_involutive.
  destruct (lstrip (rev s)) as [|c t] eqn:Hl; [done|].
  by rewrite (lstrip_nonspace c t (lstrip_head _ _ _ Hl)).
Qed.

(** A stripped text is empty or starts with a character that is not
    whitespace, so stripping it again changes nothing. *)
Lemma strip_idem s : strip (strip s) = strip s.
Proof.
  unfold strip. destruct (lstrip s) as [|c t] eqn:Hl; [done|].
  pose proof (lstrip_head _ _ _ Hl) as Hc.
  rewrite (rstrip_cons_nonspace c t Hc), (lstrip_nonspace _ _ Hc).
  by rewrite <- (rstrip_cons_nonspace c t Hc), rstrip_idem.
Qed.

Lemma strip_elem s c : c ∈ strip s → c ∈ s.
Proof.
  unfold strip. intros Hc.
  destruct (rstrip_prefix (lstrip s)) as [k Hk].
  destruct (lstrip_suffix s) as [k' Hk'].
  rewrite Hk', Hk. rewrite !elem_of_app. tauto.
Qed.

Lemma split_lines_no_newline text cur :
  (10%N ∉ cur) → Forall (λ line, 10%N ∉ line) (split_lines text cur).
Proof.
  revert cur. induction text as [|c text IH]; intros cur Hcur; simpl.
  - by repeat constructor.
  - destruct (N.eqb_spec c 10).
    + constructor; [done|]. apply IH. apply not_elem_of_nil.
    + apply IH. rewrite elem_of_app, list_elem_of_singleton. intros [?|?]; congruence.
Qed.

Lemma split_lines_blank text cur :
  blank text → blank cur → Forall blank (split_lines text cur).
Proof.
  intros Ht. revert cur. induction Ht as [|c text Hc _ IH]; intros cur Hcur; simpl.
  - by repeat constructor.
  - destruct (c =? 10)%N.
    + constructor; [done|]. apply IH. constructor.
    + apply IH. apply Forall_app. split; [done | by repeat constructor].
Qed.
End StripFacts.

Section ScraperShape.
Context `{Web}.

Lemma extract_text_blank html_content :
  blank (html_to_text html_content) → extract_text html_content = [].
Proof.
  intros Hb. unfold extract_text. cbv zeta.
  rewrite (filter_none (λ line, line ≠ [])); [done|].
  intros line Hline%list_elem_of_fmap Hne. destruct Hline as (raw & -> & Hraw).
  apply Hne. unfold strip.
  pose proof (split_lines_blank (html_to_text html_content) [] Hb (Forall_nil_2 _)) as Hall.
  eapply Forall_forall in Hall; [|exact Hraw].
  by rewrite (lstrip_blank raw Hall).
Qed.
End ScraperShape.

(** X15.  The text [extract_text] returns is made of lines that are not
    empty, have no leading or trailing whitespace and contain no line
    break, joined by single line breaks; a page whose rendering is
    whitespace only gives the empty text. *)
Theorem extract_text_shape `{Web} (html_content : str) :
  (∃ lines,
     extract_text html_content = join [10%N] lines
     ∧ Forall (λ line, line ≠ [] ∧ strip line = line ∧ (10%N ∉ line)) lines)
  ∧ (Forall (λ c, isspace c = true) (html_to_text html_content) →
     extract_text html_content = []).
Proof.
  split; [|apply extract_text_blank].
  unfold extract_text. cbv zeta. eexists. split; [reflexivity|].
  apply Forall_forall. intros line [Hne Hline]%list_elem_of_filter.
  apply list_elem_of_fmap in Hline as (raw & -> & Hraw).
  split; [done|]. split; [apply strip_idem|].
  intros Hnl%strip_elem.
  pose proof (split_lines_no_newline (html_to_text html_content) []
                (not_elem_of_nil _)) as Hall.
  by eapply Forall_forall in Hall.
Qed.

Lemma extract_text_shape_witness :
  Forall (λ c, isspace c = true) (html_to_text (Web := blank_page_web) (py "  "))
  ∧ extract_text (H := blank_page_web) (py "  ") = [].
Proof.
  assert (Hb : Forall (λ c, isspace c = true)
                 (html_to_text (Web := blank_page_web) (py "  "))).
  { vm_compute. repeat constructor. }
  split; [exact Hb|].
  exact (proj2 (extract_text_shape (H := blank_page_web) (py "  ")) Hb).
Defined.

Section ScrapeFacts.
Context `{Web}.

Lemma or_else_nonempty (x y : option str) t :
  x = Some t → t ≠ [] → or_else x y = Some t.
Proof. intros -> Ht. by destruct t. Qed.

Lemma or_else_falsy (x y : option str) : falsy x → or_else x y = y.
Proof. by intros [-> | ->]. Qed.

Lemma or_else_default (x : option str) (d : str) :
  d ≠ [] → default d (or_else x (Some d)) ≠ [].
Proof. intros Hd. by destruct x as [[|c t]|]. Qed.

Lemma fetch_url_Some url html_content :
  fetch_url url = Some html_content
  ↔ ∃ u scheme, url = Some u ∧ urlparse_scheme u = Some scheme
                ∧ scheme ∈ [py "http"; py "https"]
                ∧ requests_get u = Some html_content.
Proof.
  unfold fetch_url. split.
  - destruct url as [u|]; [|done].
    destruct (urlparse_scheme u) as [scheme|] eqn:Hs; [|done].
    destruct (bool_decide (scheme ∈ [py "http"; py "https"])) eqn:Hin; [|done].
    apply bool_decide_eq_true in Hin. cbn [negb]. intros Hget.
    by exists u, scheme.
  - intros (u & scheme & -> & -> & Hin & Hget).
    by rewrite bool_decide_eq_true_2.
Qed.
End ScrapeFacts.

(** X16.  The metadata [extract_metadata] returns for a page: the url it
    was given and the network location of that url; a title that is
    never empty, which is the page's [<title>] when that is not empty,
    else the [og:title] when that is not empty, else the text [Unknown];
    and a description chosen the same way, empty when the page has
    neither. *)
Theorem extract_metadata_fields `{Web} (html_content url : str) :
  let m := extract_metadata html_content url in
  pm_url m = url
  ∧ pm_domain m = urlparse_netloc url
  ∧ pm_title m ≠ []
  ∧ (∀ t, soup_title html_content = Some t → t ≠ [] → pm_title m = t)
  ∧ (∀ t, falsy (soup_title html_content) →
          soup_og_title html_content = Some t → t ≠ [] → pm_title m = t)
  ∧ (falsy (soup_title html_content) → falsy (soup_og_title html_content) →
     pm_title m = py "Unknown")
  ∧ (∀ d, soup_description html_content = Some d → d ≠ [] → pm_description m = d)
  ∧ (∀ d, falsy (soup_description html_content) →
          soup_og_description html_content = Some d → pm_description m = d)
  ∧ (falsy (soup_description html_content) →
     soup_og_description html_content = None → pm_description m = []).
Proof.
  cbv zeta. unfold extract_metadata. cbn [pm_url pm_domain pm_title pm_description].
  split; [done|]. split; [done|].
  split; [by apply or_else_default|].
  split.
  { intros t Ht Hne.
    rewrite (or_else_nonempty _ (soup_og_title html_content) t Ht Hne).
    by rewrite (or_else_nonempty (Some t) _ t). }
  split.
  { intros t Hf Ht Hne. rewrite (or_else_falsy _ _ Hf).
    by rewrite (or_else_nonempty _ _ t Ht Hne). }
  split.
  { intros Hf Hg. rewrite (or_else_falsy _ _ Hf), (or_else_falsy _ _ Hg). done. }
  split.
  { intros d Hd Hne.
    rewrite (or_else_nonempty _ (soup_og_description html_content) d Hd Hne).
    by rewrite (or_else_nonempty (Some d) _ d). }
  split.
  { intros d Hf Hd. rewrite (or_else_falsy _ _ Hf), Hd. by destruct d. }
  intros Hf Hd. by rewrite (or_else_falsy _ _ Hf), Hd.
Qed.

Lemma extract_metadata_fields_witness :
  pm_title (extract_metadata (H := one_page_web) (py "x") (py "http://a")) = py "A"
  ∧ pm_title (extract_metadata (H := blank_page_web) (py "x") (py "http://a"))
    = py "Unknown".
Proof.
  split.
  - apply (proj1 (proj2 (proj2 (proj2
      (extract_metadata_fields (H := one_page_web) (py "x") (py "http://a")))))).
    + reflexivity.
    + discriminate.
  - apply (proj1 (proj2 (proj2 (proj2 (proj2 (proj2
      (extract_metadata_fields (H := blank_page_web) (py "x") (py "http://a")))))))).
    + by left.
    + by left.
Defined.

(** X17.  [scrape] returns a result exactly when it is given a url whose
    scheme is [http] or [https], the request for it succeeds and the page
    is not empty; the result is then the text and the metadata extracted
    from that page.  In every other case it returns [None]. *)
Theorem scrape_succeeds_iff `{Web} (source_url : option str) (r : ScrapeResult) :
  scrape source_url = Some r
  ↔ ∃ u scheme html_content,
      source_url = Some u
      ∧ urlparse_scheme u = Some scheme
      ∧ scheme ∈ [py "http"; py "https"]
      ∧ requests_get u = Some html_content
      ∧ html_content ≠ []
      ∧ r = {| sr_content := extract_text html_content;
               sr_metadata := extract_metadata html_content u |}.
Proof.
  unfold scrape. split.
  - destruct (fetch_url source_url) as [html_content|] eqn:Hfetch; [|done].
    apply fetch_url_Some in Hfetch as (u & scheme & -> & Hs & Hin & Hget).
    destruct html_content as [|c html_content]; [done|].
    cbn [nonempty negb default]. intros [= <-].
    by exists u, scheme, (c :: html_content).
  - intros (u & scheme & html_content & -> & Hs & Hin & Hget & Hne & ->).
    rewrite (proj2 (fetch_url_Some (Some u) html_content))
      by (by exists u, scheme).
    by destruct html_content.
Qed.

(** ** The routes *)

Section RouteFacts.
Context `{Embedder} `{Web}.

(** A [/process] request that is answered: the scrape succeeded and
    [add_document] returned. *)
Lemma process_Ok source_url db msg st1 :
  process source_url db = (Ok msg, st1) →
  ∃ u r n,
    source_url = Some u ∧ scrape (Some u) = Some r
    ∧ msg = py "process completed"
    ∧ add_document (sr_content r) (process_metadata u r) (VectorStore_init db)
      = (Ok n, st1).
Proof.
  unfold process. cbv zeta.
  destruct (scrape source_url) as [r|] eqn:Hscrape; [|done].
  destruct source_url as [u|]; [|done]. cbn [default].
  unfold mbind, M_mbind, bind, ret. fold (process_metadata u r).
  destruct (add_document _ _ _) as [[n|e] st'] eqn:Hadd; [|done].
  intros [= <- <-]. by exists u, r, n.
Qed.

Lemma added_on_empty metadata chunks ids st :
  collection st = [] → length ids = length chunks → NoDup ids →
  collection (added metadata chunks ids st)
  = zip ids (fragments metadata (len chunks) 0 chunks).
Proof.
  intros Hempty Hlen Hnd. unfold added. cbn [collection].
  rewrite add_records_written, Hempty. simpl.
  apply written_all. by rewrite added_batch_ids.
Qed.

(** After a [/process] request on a new database the collection holds
    the fragments of the page and nothing else. *)
Lemma process_fresh u msg st1 :
  process (Some u) None = (Ok msg, st1) →
  ∃ r ids,
    scrape (Some u) = Some r
    ∧ msg = py "process completed"
    ∧ length ids = length (split_text text_splitter (sr_content r))
    ∧ collection st1
      = zip ids (fragments (process_metadata u r)
                   (len (split_text text_splitter (sr_content r))) 0
                   (split_text text_splitter (sr_content r))).
Proof.
  intros (u' & r & n & [= <-] & Hscrape & -> & Hadd)%process_Ok.
  exists r.
  apply add_document_Ok in Hadd as [(Hnil & -> & ->) | (_ & ids & Hids & Hnd & -> & ->)].
  - exists []. rewrite Hnil. done.
  - pose proof (chunk_ids_length _ _ _ _ Hids) as Hlen.
    exists ids. split; [done|]. split; [done|]. split; [done|].
    by apply added_on_empty.
Qed.

Lemma process_metadata_url u r : process_metadata u r !! py "url" = Some (VStr u).
Proof.
  unfold process_metadata. rewrite lookup_insert_ne by (by vm_compute).
  by rewrite lookup_singleton_eq.
Qed.

Lemma process_metadata_title u r :
  process_metadata u r !! py "title" = Some (VStr (pm_title (sr_metadata r))).
Proof. unfold process_metadata. by rewrite lookup_insert_eq. Qed.

Lemma fragment_field metadata total i chunk key :
  key ≠ py "total_chunks" → key ≠ py "chunk_index" →
  e_metadata (fragment metadata total i chunk) !! key = metadata !! key.
Proof. intros. cbn [fragment e_metadata]. by apply chunk_metadata_other. Qed.

Lemma sources_fold_same v metas acc :
  Forall (λ m, source_of m = Some v) metas →
  fold_left sources_step metas [v] = [v]
  ∧ (metas ≠ [] → acc = [] → fold_left sources_step metas acc = [v]).
Proof.
  intros Hall.
  assert (Hv : ∀ ms, Forall (λ m, source_of m = Some v) ms →
               fold_left sources_step ms [v] = [v]).
  { induction 1 as [|m ms Hm _ IH]; simpl; [done|].
    rewrite sources_step_source_of, Hm. unfold set_add. simpl.
    by rewrite py_eqb_refl. }
  split; [by apply Hv|].
  intros Hne ->. destruct Hall as [|m ms Hm Hms]; [done|]. simpl.
  rewrite sources_step_source_of, Hm. unfold set_add. simpl. by apply Hv.
Qed.
End RouteFacts.

(** X18.  A [/process] request for a page that can be fetched but whose
    text is whitespace only is answered with "process completed" and
    stores nothing: the collection is the one on disk and neither the
    model nor the collection is called. *)
Theorem process_blank_page `{Embedder} `{Web} (u scheme html_content : str)
    (db : option Collection) :
  urlparse_scheme u = Some scheme →
  scheme ∈ [py "http"; py "https"] →
  requests_get u = Some html_content →
  html_content ≠ [] →
  Forall (λ c, isspace c = true) (html_to_text html_content) →
  process (Some u) db = (Ok (py "process completed"), VectorStore_init db).
Proof.
  intros Hs Hin Hget Hne Hblank. unfold process. cbv zeta.
  assert (Hscrape : scrape (Some u)
                    = Some {| sr_content := extract_text html_content;
                              sr_metadata := extract_metadata html_content u |}).
  { unfold scrape.
    rewrite (proj2 (fetch_url_Some (Some u) html_content)) by (by exists u, scheme).
    by destruct html_content. }
  rewrite Hscrape. cbn [sr_content sr_metadata default].
  unfold mbind, M_mbind, bind, ret.
  rewrite add_document_unfold. cbv zeta.
  rewrite (extract_text_blank _ Hblank).
  by rewrite (split_text_blank [] (Forall_nil_2 _)).
Qed.

Lemma process_blank_page_witness :
  process (H := length_embedder) (H0 := blank_page_web) (Some (py "http://a")) None
  = (Ok (py "process completed"), VectorStore_init None).
Proof.
  apply (process_blank_page (H := length_embedder) (H0 := blank_page_web)
           (py "http://a") (py "http") [32; 10; 9; 32]%N None).
  - vm_compute. reflexivity.
  - vm_compute. left.
  - reflexivity.
  - discriminate.
  - vm_compute. repeat constructor.
Defined.

(** X19.  After a [/process] request that is answered on a new database,
    [/status] reports the chunks of that page and no other source: the
    number of chunks is the number of chunks of the page's text, and the
    sources are the requested url alone, or none when the page had no
    text. *)
Theorem process_then_status `{Embedder} `{Web} (u msg : str) (st1 : VectorStore) :
  process (Some u) None = (Ok msg, st1) →
  ∃ r stats st2,
    scrape (Some u) = Some r
    ∧ status (Some (collection st1)) = (Ok stats, st2)
    ∧ collection st2 = collection st1
    ∧ total_chunks stats = len (split_text text_splitter (sr_content r))
    ∧ sources stats
      = (if nonempty (split_text text_splitter (sr_content r)) then [VStr u] else [])
    ∧ total_sources stats = len (sources stats).
Proof.
  intros (r & ids & Hscrape & _ & Hlen & Hcoll)%process_fresh.
  exists r. unfold status. rewrite get_stats_unfold.
  unfold count, VectorStore_init, default. cbn [collection from_option id].
  assert (Hw : with_metadata (collection st1)).
  { rewrite Hcoll. apply Forall_forall. intros e He.
    apply zip_fragments_elem in He as (k & chunk & _ & ->). by eexists. }
  rewrite (sources_loop_records _ [] Hw).
  eexists _, _. split; [done|]. split; [reflexivity|].
  cbn [collection total_chunks sources total_sources].
  split; [done|]. split.
  { rewrite Hcoll. unfold len. rewrite length_zip, fragments_length. lia. }
  split; [|done].
  unfold records. rewrite Hcoll.
  destruct (split_text text_splitter (sr_content r)) as [|c chunks] eqn:Hchunks.
  - destruct ids; done.
  - cbn [nonempty].
    apply (sources_fold_same (VStr u) _ []); [|by destruct ids|done].
    apply Forall_forall. intros m (e & -> & He)%list_elem_of_fmap.
    apply zip_fragments_elem in He as (k & chunk & _ & ->).
    cbn [fragment e_metadata default from_option id]. unfold source_of.
    rewrite chunk_metadata_other by (by vm_compute).
    by rewrite process_metadata_url.
Qed.

Lemma process_then_status_witness :
  ∃ r stats st2,
    scrape (H := one_page_web) (Some (py "http://a")) = Some r
    ∧ status (H := length_embedder)
        (Some (collection (process (H := length_embedder) (H0 := one_page_web)
                             (Some (py "http://a")) None).2))
      = (Ok stats, st2)
    ∧ collection st2
      = collection (process (H := length_embedder) (H0 := one_page_web)
                      (Some (py "http://a")) None).2
    ∧ total_chunks stats = len (split_text text_splitter (sr_content r))
    ∧ sources stats
      = (if nonempty (split_text text_splitter (sr_content r))
         then [VStr (py "http://a")] else [])
    ∧ total_sources stats = len (sources stats).
Proof.
  apply (process_then_status (H := length_embedder) (H0 := one_page_web)
           (py "http://a") (py "process completed")).
  vm_compute. reflexivity.
Defined.

(** X20.  After a [/process] request that is answered on a new database,
    a [/search] request returns five hits, or one per chunk of the page
    when it has fewer; every hit is a chunk of the page's text and
    carries the requested url and the page's title. *)
Theorem process_then_search `{Embedder} `{Web} (u msg query : str)
    (st1 : VectorStore) :
  process (Some u) None = (Ok msg, st1) →
  ∃ r hits st2,
    scrape (Some u) = Some r
    ∧ search_route query (Some (collection st1)) = (Ok hits, st2)
    ∧ len hits = Z.min 5 (len (split_text text_splitter (sr_content r)))
    ∧ ∀ h, h ∈ hits →
        content h ∈ split_text text_splitter (sr_content r)
        ∧ metadata h !! py "url" = Some (VStr u)
        ∧ metadata h !! py "title" = Some (VStr (pm_title (sr_metadata r)))
        ∧ distance h = Some (cosine_distance (model_encode query)
                               (model_encode (content h))).
Proof.
  intros (r & ids & Hscrape & _ & Hlen & Hcoll)%process_fresh.
  exists r. unfold search_route. rewrite search_unfold. cbv zeta.
  change (5 <=? 0) with false. cbv iota.
  eexists _, _. split; [done|]. split; [reflexivity|].
  unfold VectorStore_init, default. cbn [collection from_option id]. split.
  - unfold len at 1. rewrite length_fmap.
    etrans; [apply (nearest_exact_length _ 5 None); lia|].
    cbn [matches]. unfold Collection in *. rewrite filter_all by done.
    rewrite Hcoll. unfold len. rewrite length_zip, fragments_length. lia.
  - intros h (e & -> & He)%list_elem_of_fmap.
    apply nearest_elem in He as [He _]. unfold Collection in *.
    rewrite Hcoll in He.
    apply zip_fragments_elem in He as (k & chunk & Hk & Hfr).
    cbn [hit_of content metadata distance]. rewrite Hfr.
    cbn [fragment e_document e_embedding].
    split; [by eapply list_elem_of_lookup_2|].
    split; [|split; [|done]].
    + rewrite <- process_metadata_url with (r := r).
      apply (fragment_field _ _ _ chunk); by vm_compute.
    + rewrite <- (process_metadata_title u r).
      apply (fragment_field _ _ _ chunk); by vm_compute.
Qed.

Lemma process_then_search_witness :
  ∃ r hits st2,
    scrape (H := one_page_web) (Some (py "http://a")) = Some r
    ∧ search_route (H := length_embedder) (py "fox")
        (Some (collection (process (H := length_embedder) (H0 := one_page_web)
                             (Some (py "http://a")) None).2))
      = (Ok hits, st2)
    ∧ len hits = Z.min 5 (len (split_text text_splitter (sr_content r)))
    ∧ ∀ h, h ∈ hits →
        content h ∈ split_text text_splitter (sr_content r)
        ∧ metadata h !! py "url" = Some (VStr (py "http://a"))
        ∧ metadata h !! py "title" = Some (VStr (pm_title (sr_metadata r)))
        ∧ distance h = Some (cosine_distance (Embedder := length_embedder)
                               (model_encode (py "fox"))
                               (model_encode (content h))).
Proof.
  apply (process_then_search (H := length_embedder) (H0 := one_page_web)
           (py "http://a") (py "process completed") (py "fox")).
  vm_compute. reflexivity.
Defined.

(** ** The texts behind the ids *)

Section IdTexts.

Lemma digits_of_uint_inj u v : digits_of_uint u = digits_of_uint v → u = v.
Proof.
  revert v. induction u as [|u IH|u IH|u IH|u IH|u IH|u IH|u IH|u IH|u IH|u IH];
    intros [|v|v|v|v|v|v|v|v|v|v]; simpl; try discriminate; try done;
    intros [= Huv]; f_equal; by apply IH.
Qed.

Lemma digits_of_uint_no_colon u : 58%N ∉ digits_of_uint u.
Proof.
  induction u; simpl; [apply not_elem_of_nil|..];
    (apply not_elem_of_cons; split; [discriminate | done]).
Qed.

Lemma str_of_nat_inj i j : str_of_nat i = str_of_nat j → i = j.
Proof.
  unfold str_of_nat. intros Hd%digits_of_uint_inj.
  apply Nat2N.inj. by rewrite <- (DecimalN.Unsigned.of_to (N.of_nat i)), Hd,
    DecimalN.Unsigned.of_to.
Qed.

(** Two texts that agree up to and including their first occurrence of a
    character have the same part before it. *)
Lemma app_first_occurrence (c : N) (d1 d2 r1 r2 : str) :
  c ∉ d1 → c ∉ d2 → d1 ++ c :: r1 = d2 ++ c :: r2 → d1 = d2.
Proof.
  revert d2. induction d1 as [|x d1 IH]; intros [|y d2] H1 H2; simpl.
  - done.
  - intros [= <- _]. exfalso. apply H2. left.
  - intros [= -> _]. exfalso. apply H1. left.
  - intros [= -> Heq]. f_equal. apply (IH d2); [| |done].
    + intros ?. apply H1. by right.
    + intros ?. apply H2. by right.
Qed.
End IdTexts.

(** X21.  The id of a chunk is the MD5 digest of a text in which the
    position stands between the last [_] before it and the first [:]
    after it.  For one source, the texts hashed for two chunks are equal
    exactly when the chunks are at the same position and agree on their
    first 100 characters, whatever the source identifier is: two ids of
    one batch, which are at different positions, come from different
    texts and can only coincide by a collision of MD5. *)
Theorem chunk_id_texts_distinct (url : value) (i j : nat)
    (chunk_i chunk_j : str) :
  chunk_id url i chunk_i = md5_hex (id_text url i chunk_i)
  ∧ chunk_id url j chunk_j = md5_hex (id_text url j chunk_j)
  ∧ (id_text url i chunk_i = id_text url j chunk_j
     ↔ i = j ∧ take 100 chunk_i = take 100 chunk_j).
Proof.
  assert (Hid : ∀ k c, chunk_id url k c = md5_hex (id_text url k c)).
  { intros k c. unfold chunk_id, _generate_id, id_text. cbv zeta.
    by rewrite <- !app_assoc. }
  split; [apply Hid|]. split; [apply Hid|]. split.
  - unfold id_text. intros Heq.
    apply app_inv_head in Heq. change (py "_") with [95%N] in Heq.
    change (py ":") with [58%N] in Heq. cbn [app] in Heq.
    injection Heq as Heq.
    assert (Hij : i = j).
    { apply str_of_nat_inj.
      by apply (app_first_occurrence 58%N _ _ (take 100 chunk_i) (take 100 chunk_j));
        [apply digits_of_uint_no_colon..|]. }
    subst j. split; [done|].
    apply app_inv_head in Heq. by injection Heq.
  - intros [-> Hpre]. unfold id_text. by rewrite Hpre.
Qed.
